(** * NC_Compare: the difference classifier and the batch orchestration

    A shallow embedding of [NC/Compare_txt.py] and [NC/Compare_nc_txt.py].
    Both files define a class [BatchFileComparator]; the two copies of
    [_analyze_differences] are the same statement for statement, so the
    classifier is embedded once (module [Classifier]) and used by both
    orchestration models (modules [CompareTxt] and [CompareNc]). *)

From Stdlib Require Import ZArith Lia Ascii String List Sorted.
From stdpp Require Import base option list strings sorting gmap.

(** ** Python results: a value or a raised exception *)

(** The exception classes that the embedded code can meet. *)
Inductive exn : Type :=
  | IndexError
  | UnicodeDecodeError
  | OSError
  | TypeError
  | OtherError (msg : string)
  | OutOfFuel.  (* not a Python exception: a loop of the model ran out of fuel *)

Inductive result (A : Type) : Type :=
  | Ok (a : A)
  | Raise (e : exn).
Arguments Ok {A} a.
Arguments Raise {A} e.

Definition bind {A B : Type} (m : result A) (k : A -> result B) : result B :=
  match m with
  | Ok a => k a
  | Raise e => Raise e
  end.

Notation "'do' x <- m ; k" := (bind m (fun x => k))
  (at level 10, x pattern, m at level 100, k at level 200).

(** ** Python string primitives used by the classifier *)

(** The newline character ['\n']. *)
Definition LF : ascii := ascii_of_nat 10.

(** [s[n:]]: a slice never raises, it is empty past the end. *)
Fixpoint slice_from (n : nat) (s : string) : string :=
  match n, s with
  | O, _ => s
  | S n', EmptyString => EmptyString
  | S n', String _ s' => slice_from n' s'
  end.

(** [s.rstrip(c)] for a one-character argument: every trailing [c] goes. *)
Fixpoint rstrip (c : ascii) (s : string) : string :=
  match s with
  | EmptyString => EmptyString
  | String a s' =>
      match rstrip c s' with
      | EmptyString => if Ascii.eqb a c then EmptyString else String a EmptyString
      | r => String a r
      end
  end.

(** [s.startswith(p)]. *)
Fixpoint startswith (s p : string) {struct p} : bool :=
  match p with
  | EmptyString => true
  | String c p' =>
      match s with
      | EmptyString => false
      | String a s' => Ascii.eqb a c && startswith s' p'
      end
  end.

(** ** Text and bytes

    A Python [str] is represented by its UTF-8 encoding, and a [bytes]
    object by its bytes: both are strings of 8-bit characters here.  The
    characters the code looks at (the blank, ['-'], ['+'], ['?'], the line
    feed, the carriage return) are single bytes of the encoding and occur
    in it only as themselves, and the encoding is one to one, so indexing
    the first characters of a line, stripping line feeds and comparing
    lines for equality act on the encoding as they do on the text. *)

(** A line read from a file: text, or bytes when the file was opened in
    binary mode and the line was not decoded. *)
Inductive pyline : Type :=
  | PStr (s : string)
  | PBytes (b : string).

#[global] Instance pyline_eq_dec : EqDecision pyline.
Proof. solve_decision. Defined.

#[global] Instance pyline_countable : Countable pyline :=
  inj_countable'
    (fun x => match x with PStr s => inl s | PBytes b => inr b end)
    (fun y => match y with inl s => PStr s | inr b => PBytes b end)
    (fun x => match x with PStr _ => eq_refl | PBytes _ => eq_refl end).

Definition CR : ascii := ascii_of_nat 13.
Definition TAB : ascii := ascii_of_nat 9.
Definition DQUOTE : ascii := ascii_of_nat 34.
Definition SQUOTE : ascii := ascii_of_nat 39.
Definition BACKSLASH : ascii := ascii_of_nat 92.

Fixpoint contains_char (c : ascii) (s : string) : bool :=
  match s with
  | EmptyString => false
  | String a s' => Ascii.eqb a c || contains_char c s'
  end.

Definition hex_digit (n : nat) : ascii :=
  ascii_of_nat (if n <? 10 then 48 + n else 87 + n).

(** The body of [repr(b)] for a [bytes] object, between the quotes. *)
Fixpoint escape_bytes (quote : ascii) (b : string) : string :=
  match b with
  | EmptyString => EmptyString
  | String c rest =>
      let n := nat_of_ascii c in
      let this :=
        if Ascii.eqb c quote || Ascii.eqb c BACKSLASH then String BACKSLASH (String c "")
        else if Ascii.eqb c TAB then String BACKSLASH "t"
        else if Ascii.eqb c LF then String BACKSLASH "n"
        else if Ascii.eqb c CR then String BACKSLASH "r"
        else if (n <? 32) || (127 <=? n) then
          String BACKSLASH (String "x" (String (hex_digit (n / 16))
                                          (String (hex_digit (n mod 16)) "")))
        else String c "" in
      this +:+ escape_bytes quote rest
  end.

(** [repr(b)]: [b'...'], or with double quotes when [b] holds a single
    quote and no double quote. *)
Definition bytes_repr (b : string) : string :=
  let quote :=
    if contains_char SQUOTE b && negb (contains_char DQUOTE b) then DQUOTE else SQUOTE in
  String "b" (String quote (escape_bytes quote b +:+ String quote "")).

(** ['%s' % x]: a text line as it is, a bytes line as its [repr]. *)
Definition format_s (x : pyline) : string :=
  match x with
  | PStr s => s
  | PBytes b => bytes_repr b
  end.

(** Whether a byte string is well-formed UTF-8 (the strict codec: no
    overlong form, no surrogate, nothing above U+10FFFF). *)
Definition in_range (lo hi : nat) (c : ascii) : bool :=
  let n := nat_of_ascii c in (lo <=? n) && (n <=? hi).

Fixpoint utf8_valid (b : string) : bool :=
  match b with
  | EmptyString => true
  | String c0 r0 =>
      if in_range 0 127 c0 then utf8_valid r0
      else
        match r0 with
        | EmptyString => false
        | String c1 r1 =>
            if in_range 194 223 c0 then in_range 128 191 c1 && utf8_valid r1
            else
              match r1 with
              | EmptyString => false
              | String c2 r2 =>
                  if in_range 224 239 c0 then
                    (if Ascii.eqb c0 (ascii_of_nat 224) then in_range 160 191 c1
                     else if Ascii.eqb c0 (ascii_of_nat 237) then in_range 128 159 c1
                     else in_range 128 191 c1)
                    && in_range 128 191 c2 && utf8_valid r2
                  else
                    match r2 with
                    | EmptyString => false
                    | String c3 r3 =>
                        in_range 240 244 c0
                        && (if Ascii.eqb c0 (ascii_of_nat 240) then in_range 144 191 c1
                            else if Ascii.eqb c0 (ascii_of_nat 244) then in_range 128 143 c1
                            else in_range 128 191 c1)
                        && in_range 128 191 c2 && in_range 128 191 c3 && utf8_valid r3
                    end
              end
        end
  end.

(** [data.decode('utf-8')]. *)
Definition decode_utf8 (data : string) : result string :=
  if utf8_valid data then Ok data else Raise UnicodeDecodeError.

(** [data.decode('latin1')]: byte [n] is the character U+00n, two bytes
    of UTF-8 from 128 on.  It never fails. *)
Fixpoint decode_latin1 (data : string) : string :=
  match data with
  | EmptyString => EmptyString
  | String c rest =>
      let n := nat_of_ascii c in
      if n <? 128 then String c (decode_latin1 rest)
      else String (ascii_of_nat (192 + n / 64))
             (String (ascii_of_nat (128 + n mod 64)) (decode_latin1 rest))
  end.

(** Universal newlines, as a file opened in text mode reads them: a
    carriage return, with the line feed after it if there is one, is read
    as a line feed. *)
Fixpoint universal_newlines (s : string) : string :=
  match s with
  | EmptyString => EmptyString
  | String c rest =>
      if Ascii.eqb c CR then
        match rest with
        | String c' rest' =>
            if Ascii.eqb c' LF then String LF (universal_newlines rest')
            else String LF (universal_newlines rest)
        | EmptyString => String LF EmptyString
        end
      else String c (universal_newlines rest)
  end.

(** The lines of a file's content, each with its line feed; [cur] is the
    line being read, backwards. *)
Fixpoint split_lines (cur : list ascii) (s : string) : list string :=
  match s with
  | EmptyString =>
      match cur with
      | [] => []
      | _ => [string_of_list_ascii (rev cur)]
      end
  | String c rest =>
      if Ascii.eqb c LF then
        string_of_list_ascii (rev (c :: cur)) :: split_lines [] rest
      else split_lines (c :: cur) rest
  end.

Module Classifier.

(** The four values of a difference's ['type'] key. *)
Inductive diff_type : Type :=
  | KRemoved          (* '删除' *)
  | KAdded            (* '添加' *)
  | KChanged          (* '变化' *)
  | KChangedContent.  (* '变化后内容' *)

#[global] Instance diff_type_eq_dec : EqDecision diff_type.
Proof. solve_decision. Defined.

(** One dict of the [differences] list.  The ['line'] key holds an int, or
    the empty string for a changed-content entry: [None] here. *)
Record DiffRecord : Type := mkDiff {
  type : diff_type;
  line : option nat;
  content : string
}.

#[global] Instance DiffRecord_eq_dec : EqDecision DiffRecord.
Proof. solve_decision. Defined.

(** The local state of the loop: [differences] and [line_num]. *)
Definition state : Type := (list DiffRecord * nat)%type.

(** [differences[-1]['type'] = t], for a non-empty list. *)
Definition set_last_type (t : diff_type) (differences : list DiffRecord) : list DiffRecord :=
  match last differences with
  | Some d => removelast differences ++ [mkDiff t (line d) (content d)]
  | None => differences
  end.

(** One iteration of [for line in diff]. *)
Definition analyze_step (st : state) (ln : string) : result state :=
  let '(differences, line_num) := st in
  if startswith ln "  " then Ok (differences, line_num + 1)
  else
    match String.get 0 ln with
    | None => Raise IndexError
    | Some prefix =>
        let content := slice_from 2 ln in
        if Ascii.eqb prefix "-" then
          Ok (differences ++ [mkDiff KRemoved (Some (line_num + 1)) (rstrip LF content)],
              line_num)
        else if Ascii.eqb prefix "+" then
          Ok (differences ++ [mkDiff KAdded (Some (line_num + 1)) (rstrip LF content)],
              line_num + 1)
        else if Ascii.eqb prefix "?" then
          match last differences with
          | Some d =>
              if decide (type d = KRemoved) then
                Ok (set_last_type KChanged differences
                      ++ [mkDiff KChangedContent None (rstrip LF content)],
                    line_num)
              else Ok (differences, line_num)
          | None => Ok (differences, line_num)
          end
        else Ok (differences, line_num)
    end.

(** The whole [for] loop, from a given state. *)
Fixpoint analyze_loop (diff : list string) (st : state) : result state :=
  match diff with
  | [] => Ok st
  | ln :: rest => do st' <- analyze_step st ln; analyze_loop rest st'
  end.

(** [_analyze_differences(diff)]: the loop from [([], 0)]; the list is returned. *)
Definition _analyze_differences (diff : list string) : result (list DiffRecord) :=
  do st <- analyze_loop diff ([], 0); Ok (fst st).

(** The value of [line_num] when the loop ends (a local of the function). *)
Definition final_line_num (diff : list string) : result nat :=
  do st <- analyze_loop diff ([], 0); Ok (snd st).

(** *** The alignment sequence as tagged records

    [difflib.Differ.compare] yields strings: a two-character prefix (the
    tag and a blank, ['%s %s' % (tag, x[i])]) followed by the payload.  An
    alignment record is such a string seen through its tag. *)
Inductive AlignmentRecord : Type :=
  | Common (payload : string)    (* "  " *)
  | Removed (payload : string)   (* "- " *)
  | Added (payload : string)     (* "+ " *)
  | Hint (payload : string).     (* "? " *)

Definition render (r : AlignmentRecord) : string :=
  match r with
  | Common p => "  " +:+ p
  | Removed p => "- " +:+ p
  | Added p => "+ " +:+ p
  | Hint p => "? " +:+ p
  end.

Definition is_common (r : AlignmentRecord) : bool :=
  match r with Common _ => true | _ => false end.

Definition is_added (r : AlignmentRecord) : bool :=
  match r with Added _ => true | _ => false end.

(** The number of records of an alignment sequence that satisfy [f]. *)
Definition count_tag (f : AlignmentRecord -> bool) (al : list AlignmentRecord) : nat :=
  length (List.filter f al).

(** The loop over a tagged alignment sequence. *)
Definition classify_from (al : list AlignmentRecord) (st : state) : result state :=
  analyze_loop (map render al) st.

(** The line numbers carried by the records of an output, in output order. *)
Definition line_numbers (ds : list DiffRecord) : list nat := omap line ds.

(** The shape of every output of the loop: removed and added entries, and
    changed entries each followed by their changed-content entry. *)
Inductive well_formed : list DiffRecord -> Prop :=
  | wf_nil : well_formed []
  | wf_removed l c ds :
      well_formed ds -> well_formed (mkDiff KRemoved (Some l) c :: ds)
  | wf_added l c ds :
      well_formed ds -> well_formed (mkDiff KAdded (Some l) c :: ds)
  | wf_changed l c c' ds :
      well_formed ds ->
      well_formed (mkDiff KChanged (Some l) c :: mkDiff KChangedContent None c' :: ds).

(** The invariant of the loop on line numbers: they are sorted, and none
    exceeds the number the next emitted entry would get. *)
Definition lines_inv (st : state) : Prop :=
  StronglySorted le (line_numbers (fst st)) /\
  Forall (fun l => l <= snd st + 1) (line_numbers (fst st)).

End Classifier.

(** * The line aligner: [difflib.Differ().compare]

    [_compare_files] aligns the two line lists with the standard library's
    [difflib.Differ] (no line-junk and no character-junk function).  The
    functions below follow CPython's [Lib/difflib.py]: the class
    [SequenceMatcher] ([__chain_b], [find_longest_match],
    [get_matching_blocks], [get_opcodes]) and [Differ.compare] with
    [_dump].  [Differ._fancy_replace], which scores the similarity of lines
    with floating-point ratios, is a parameter of [compare]. *)
Module Difflib.

(** [x[i]] for [0 <= i]: out of range it raises. *)
Definition getitem {A : Type} (x : list A) (i : nat) : result A :=
  match x !! i with
  | Some v => Ok v
  | None => Raise IndexError
  end.

(** The loop of [__chain_b] that fills [b2j]:
    [b2j.setdefault(elt, []).append(i)] for [i, elt] in [enumerate(b)]. *)
Fixpoint chain_b_loop (b : list pyline) (i : nat) (b2j : gmap pyline (list nat))
  : gmap pyline (list nat) :=
  match b with
  | [] => b2j
  | elt :: rest =>
      chain_b_loop rest (S i) (<[elt := default [] (b2j !! elt) ++ [i]]> b2j)
  end.

(** [__chain_b] with [isjunk = None] and [autojunk = True]: no junk, and
    for [200] elements or more the popular ones leave [b2j]. *)
Definition chain_b (b : list pyline) : gmap pyline (list nat) :=
  let b2j := chain_b_loop b 0 ∅ in
  let n := length b in
  if 200 <=? n then
    let ntest := n / 100 + 1 in
    filter (fun p : pyline * list nat => ¬ (ntest < length p.2)) b2j
  else b2j.

(** [self.bjunk.__contains__]: the junk set is empty. *)
Definition isbjunk (elt : pyline) : bool := false.

(** A [Match(a, b, size)], and the running best of [find_longest_match]. *)
Definition Match : Type := (nat * nat * nat)%type.

(** [j2lenget(j-1, 0)]: for [j = 0] the key is [-1], which no map holds. *)
Definition j2lenget (j2len : gmap nat nat) (j : nat) : nat :=
  match j with
  | O => 0
  | S j' => default 0 (j2len !! j')
  end.

(** [for j in b2j.get(a[i], nothing)], with its [continue] and [break]. *)
Fixpoint flm_inner (js : list nat) (i blo bhi : nat) (j2len newj2len : gmap nat nat)
    (best : Match) : gmap nat nat * Match :=
  match js with
  | [] => (newj2len, best)
  | j :: js' =>
      if j <? blo then flm_inner js' i blo bhi j2len newj2len best
      else if bhi <=? j then (newj2len, best)
      else
        let k := j2lenget j2len j + 1 in
        let newj2len := <[j := k]> newj2len in
        let best := if best.2 <? k then (i + 1 - k, j + 1 - k, k) else best in
        flm_inner js' i blo bhi j2len newj2len best
  end.

(** [for i in range(alo, ahi)], over the list of the values of [i]. *)
Fixpoint flm_outer (a : list pyline) (b2j : gmap pyline (list nat)) (rows : list nat)
    (blo bhi : nat) (j2len : gmap nat nat) (best : Match) : result Match :=
  match rows with
  | [] => Ok best
  | i :: rows' =>
      do ai <- getitem a i;
      let '(newj2len, best') :=
        flm_inner (default [] (b2j !! ai)) i blo bhi j2len ∅ best in
      flm_outer a b2j rows' blo bhi newj2len best'
  end.

(** The two loops that grow the block backwards: [junk] says whether the
    loop wants [isbjunk(b[bestj-1])] or its negation. *)
Fixpoint extend_back (a b : list pyline) (junk : bool) (alo blo : nat)
    (besti bestj bestsize : nat) {struct besti} : result Match :=
  match besti, bestj with
  | S i', S j' =>
      if (alo <? besti) && (blo <? bestj) then
        do bj <- getitem b j';
        if Bool.eqb (isbjunk bj) junk then
          do ai <- getitem a i';
          do bj' <- getitem b j';
          if bool_decide (ai = bj') then
            extend_back a b junk alo blo i' j' (bestsize + 1)
          else Ok (besti, bestj, bestsize)
        else Ok (besti, bestj, bestsize)
      else Ok (besti, bestj, bestsize)
  | _, _ => Ok (besti, bestj, bestsize)
  end.

(** The two loops that grow the block forwards; [d] is [ahi - (besti +
    bestsize)], the number of times [besti + bestsize < ahi] can still hold. *)
Fixpoint extend_fwd (a b : list pyline) (junk : bool) (bhi : nat) (d : nat)
    (besti bestj bestsize : nat) {struct d} : result Match :=
  match d with
  | O => Ok (besti, bestj, bestsize)
  | S d' =>
      if bestj + bestsize <? bhi then
        do bj <- getitem b (bestj + bestsize);
        if Bool.eqb (isbjunk bj) junk then
          do ai <- getitem a (besti + bestsize);
          do bj' <- getitem b (bestj + bestsize);
          if bool_decide (ai = bj') then
            extend_fwd a b junk bhi d' besti bestj (bestsize + 1)
          else Ok (besti, bestj, bestsize)
        else Ok (besti, bestj, bestsize)
      else Ok (besti, bestj, bestsize)
  end.

(** [find_longest_match(alo, ahi, blo, bhi)]. *)
Definition find_longest_match (a b : list pyline) (b2j : gmap pyline (list nat))
    (alo ahi blo bhi : nat) : result Match :=
  do best <- flm_outer a b2j (seq alo (ahi - alo)) blo bhi ∅ (alo, blo, 0);
  let '(besti, bestj, bestsize) := best in
  do best <- extend_back a b false alo blo besti bestj bestsize;
  let '(besti, bestj, bestsize) := best in
  do best <- extend_fwd a b false bhi (ahi - (besti + bestsize)) besti bestj bestsize;
  let '(besti, bestj, bestsize) := best in
  do best <- extend_back a b true alo blo besti bestj bestsize;
  let '(besti, bestj, bestsize) := best in
  extend_fwd a b true bhi (ahi - (besti + bestsize)) besti bestj bestsize.

(** The [while queue] loop of [get_matching_blocks].  The Python list
    [queue] is used as a stack ([append] and [pop]): its top is the head
    here.  Every iteration costs one unit of fuel. *)
Fixpoint gmb_loop (fuel : nat) (a b : list pyline) (b2j : gmap pyline (list nat))
    (queue : list (nat * nat * nat * nat)) (matching_blocks : list Match)
  : result (list Match) :=
  match queue with
  | [] => Ok matching_blocks
  | (alo, ahi, blo, bhi) :: queue' =>
      match fuel with
      | O => Raise OutOfFuel
      | S fuel' =>
          do x <- find_longest_match a b b2j alo ahi blo bhi;
          let '(i, j, k) := x in
          if k =? 0 then gmb_loop fuel' a b b2j queue' matching_blocks
          else
            let q1 := if (alo <? i) && (blo <? j)
                      then (alo, i, blo, j) :: queue' else queue' in
            let q2 := if (i + k <? ahi) && (j + k <? bhi)
                      then (i + k, ahi, j + k, bhi) :: q1 else q1 in
            gmb_loop fuel' a b b2j q2 (matching_blocks ++ [x])
      end
  end.

(** The order of tuples: lexicographic. *)
Definition Match_leb (x y : Match) : bool :=
  let '(i1, j1, k1) := x in
  let '(i2, j2, k2) := y in
  (i1 <? i2) || ((i1 =? i2) && ((j1 <? j2) || ((j1 =? j2) && (k1 <=? k2)))).

(** The loop that merges adjacent blocks; the state is [(i1, j1, k1)] and
    [non_adjacent]. *)
Fixpoint collapse (blocks : list Match) (cur : Match) (non_adjacent : list Match)
  : Match * list Match :=
  match blocks with
  | [] => (cur, non_adjacent)
  | (i2, j2, k2) :: rest =>
      let '(i1, j1, k1) := cur in
      if (i1 + k1 =? i2) && (j1 + k1 =? j2) then
        collapse rest (i1, j1, k1 + k2) non_adjacent
      else
        collapse rest (i2, j2, k2)
          (if k1 =? 0 then non_adjacent else non_adjacent ++ [(i1, j1, k1)])
  end.

(** [get_matching_blocks()].  An iteration of the loop that finds a block
    takes one element of [a] at least, and leaves two ranges at most. *)
Definition get_matching_blocks (a b : list pyline) : result (list Match) :=
  let la := length a in
  let lb := length b in
  do matching_blocks <- gmb_loop (2 * la + 1) a b (chain_b b) [(0, la, 0, lb)] [];
  let sorted := merge_sort (fun x y => Is_true (Match_leb x y)) matching_blocks in
  let '((i1, j1, k1), non_adjacent) := collapse sorted (0, 0, 0) [] in
  let non_adjacent :=
    if k1 =? 0 then non_adjacent else non_adjacent ++ [(i1, j1, k1)] in
  Ok (non_adjacent ++ [(la, lb, 0)]).

Inductive tag : Type := Replace | Delete | Insert | Equal.

Definition opcode : Type := (tag * nat * nat * nat * nat)%type.

(** The loop of [get_opcodes] over the matching blocks. *)
Fixpoint opcodes_loop (blocks : list Match) (i j : nat) (answer : list opcode)
  : list opcode :=
  match blocks with
  | [] => answer
  | (ai, bj, size) :: rest =>
      let answer :=
        if (i <? ai) && (j <? bj) then answer ++ [(Replace, i, ai, j, bj)]
        else if i <? ai then answer ++ [(Delete, i, ai, j, bj)]
        else if j <? bj then answer ++ [(Insert, i, ai, j, bj)]
        else answer in
      let answer :=
        if size =? 0 then answer
        else answer ++ [(Equal, ai, ai + size, bj, bj + size)] in
      opcodes_loop rest (ai + size) (bj + size) answer
  end.

Definition get_opcodes (a b : list pyline) : result (list opcode) :=
  do blocks <- get_matching_blocks a b;
  Ok (opcodes_loop blocks 0 0 []).

(** [_dump(tag, x, lo, hi)]: the lines ['%s %s' % (tag, x[i])]. *)
Fixpoint dump_loop (tg : string) (x : list pyline) (idx : list nat) : result (list string) :=
  match idx with
  | [] => Ok []
  | i :: idx' =>
      do xi <- getitem x i;
      do rest <- dump_loop tg x idx';
      Ok ((tg +:+ " " +:+ format_s xi) :: rest)
  end.

Definition _dump (tg : string) (x : list pyline) (lo hi : nat) : result (list string) :=
  dump_loop tg x (seq lo (hi - lo)).

(** *** Notions used to reason about [find_longest_match]

    The positions of [x] in [b], counted from [i], in increasing order:
    what [b2j[x]] holds when [x] is a key. *)
Fixpoint positions (x : pyline) (b : list pyline) (i : nat) : list nat :=
  match b with
  | [] => []
  | y :: rest => (if decide (x = y) then [i] else []) ++ positions x rest (S i)
  end.

(** The length of the run of elements of [a] that are keys of [b2j] (not
    popular) and that ends at index [m]. *)
Fixpoint drun (a : list pyline) (b2j : gmap pyline (list nat)) (m : nat) : nat :=
  let prev := match m with O => 0 | S m' => drun a b2j m' end in
  match a !! m with
  | Some x => if bool_decide (is_Some (b2j !! x)) then prev + 1 else 0
  | None => 0
  end.

(** The run that ends just before index [i]. *)
Definition dprev (a : list pyline) (b2j : gmap pyline (list nat)) (i : nat) : nat :=
  match i with O => 0 | S i' => drun a b2j i' end.

(** What the loop of [get_matching_blocks] still has to do: twice the
    length of the range of [a], and one, for every range of the queue. *)
Definition queue_weight (queue : list (nat * nat * nat * nat)) : nat :=
  foldr (fun r acc => 2 * (r.1.1.2 - r.1.1.1) + 1 + acc) 0 queue.

(** A range [(alo, ahi, blo, bhi)] inside [a] and [b]. *)
Definition range_ok (a b : list pyline) (r : nat * nat * nat * nat) : Prop :=
  r.1.1.1 <= r.1.1.2 /\ r.1.1.2 <= length a /\ r.1.2 <= r.2 /\ r.2 <= length b.

Section Compare.

(** [Differ._fancy_replace(a, alo, ahi, b, blo, bhi)], as a list. *)
Variable _fancy_replace :
  list pyline -> nat -> nat -> list pyline -> nat -> nat -> result (list string).

Fixpoint compare_loop (a b : list pyline) (ops : list opcode) : result (list string) :=
  match ops with
  | [] => Ok []
  | (tg, alo, ahi, blo, bhi) :: ops' =>
      do g <- match tg with
              | Replace => _fancy_replace a alo ahi b blo bhi
              | Delete => _dump "-" a alo ahi
              | Insert => _dump "+" b blo bhi
              | Equal => _dump " " a alo ahi
              end;
      do rest <- compare_loop a b ops';
      Ok (g ++ rest)
  end.

(** [list(Differ().compare(a, b))]. *)
Definition compare (a b : list pyline) : result (list string) :=
  do ops <- get_opcodes a b;
  compare_loop a b ops.

End Compare.

End Difflib.

(** * The file system and the log

    What the comparators see of the file system: under the parent
    directory, named entries that are files (with their bytes) or
    directories.  A path is the list of names from the parent directory. *)
#[warnings="-register-all"]
Inductive node : Type :=
  | File (data : string)
  | Dir (entries : list (string * node)).

Definition path : Type := list string.

(** [os.listdir(d)]: the names, in the order the system gives them. *)
Definition listdir (entries : list (string * node)) : list string := map fst entries.

Definition lookup_entry (name : string) (entries : list (string * node)) : option node :=
  snd <$> List.find (fun e => String.eqb (fst e) name) entries.

Fixpoint resolve (entries : list (string * node)) (p : path) : option node :=
  match p with
  | [] => Some (Dir entries)
  | name :: p' =>
      match lookup_entry name entries, p' with
      | Some n, [] => Some n
      | Some (Dir sub), _ => resolve sub p'
      | _, _ => None
      end
  end.

(** [os.path.isdir(p)] and [os.path.exists(p)]. *)
Definition isdir (root : list (string * node)) (p : path) : bool :=
  match resolve root p with Some (Dir _) => true | _ => false end.

Definition exists_ (root : list (string * node)) (p : path) : bool :=
  match resolve root p with Some _ => true | None => false end.

(** A plain name: one that [os.path.join] adds to a folder as a single
    component and that can name an entry of the folder: not empty, not
    ['.'] nor ['..'], and without a separator (['/'], ['\']) or a drive
    colon.  For a plain name, [os.path.exists(os.path.join(folder_path,
    name))] asks whether the folder has an entry of that name, which is
    what [exists_] answers at [folder_path ++ [name]]; for another name
    (empty, a sub path, an absolute path) the path that the code builds
    is not an entry of the folder, and [exists_] does not speak for it. *)
Definition plain_name (name : string) : bool :=
  negb (String.eqb name EmptyString)
  && negb (String.eqb name ".") && negb (String.eqb name "..")
  && negb (contains_char "/" name) && negb (contains_char BACKSLASH name)
  && negb (contains_char ":" name).

(** [open(p, ...)] followed by reading everything: the bytes of a file; a
    directory or a missing entry raises an [OSError]. *)
Definition open_read (root : list (string * node)) (p : path) : result string :=
  match resolve root p with
  | Some (File data) => Ok data
  | _ => Raise OSError
  end.

(** [f.readlines()] on a file opened with ['r', encoding='utf-8']. *)
Definition readlines_text (data : string) : result (list pyline) :=
  do text <- decode_utf8 data;
  Ok (map PStr (split_lines [] (universal_newlines text))).

(** [f.readlines()], or iterating [f], on a file opened with ['rb']. *)
Definition readlines_binary (data : string) : list string := split_lines [] data.

(** The calls of [self.logger.error], by what they report; the records of
    level INFO are left out. *)
Inductive log_record : Type :=
  | LogNoPairs                                  (* Compare_txt.run *)
  | LogPairError (folder : string) (e : exn)    (* Compare_txt._compare_file_pair *)
  | LogNoFolders                                (* Compare_nc_txt.run *)
  | LogCompareError (e : exn).                  (* Compare_nc_txt._compare_in_folder *)

(** * [Compare_txt.py] *)
Module CompareTxt.

Section Comparator.

(** [Differ._fancy_replace], and the attributes of the comparator. *)
Variable _fancy_replace :
  list pyline -> nat -> nat -> list pyline -> nat -> nat -> result (list string).
Variable parent_dir : list (string * node).
Variables file1_name file2_name : string.

(** A dict of [file_pairs]. *)
Record pair : Type := mkPair {
  folder : string;
  folder_path : path;
  file1 : path;
  file2 : path
}.

(** [_find_file_pairs()].  The two paths of a folder are the folder's
    path with the name added, which is [os.path.join] for names that are
    plain ([plain_name]); the statements that depend on which folders are
    found ask for plain names. *)
Definition _find_file_pairs : list pair :=
  flat_map
    (fun folder =>
       let folder_path := [folder] in
       if negb (isdir parent_dir folder_path) then []
       else
         let file1_path := folder_path ++ [file1_name] in
         let file2_path := folder_path ++ [file2_name] in
         if exists_ parent_dir file1_path && exists_ parent_dir file2_path
         then [mkPair folder folder_path file1_path file2_path]
         else [])
    (listdir parent_dir).

(** The [try] statement of [_compare_files]: both files as UTF-8 text,
    and on a [UnicodeDecodeError] both files again in binary mode. *)
Definition read_lines (file1 file2 : path) : result (list pyline * list pyline) :=
  let primary :=
    do d1 <- open_read parent_dir file1;
    do d2 <- open_read parent_dir file2;
    do lines1 <- readlines_text d1;
    do lines2 <- readlines_text d2;
    Ok (lines1, lines2) in
  match primary with
  | Raise UnicodeDecodeError =>
      do d1 <- open_read parent_dir file1;
      do d2 <- open_read parent_dir file2;
      Ok (map PBytes (readlines_binary d1), map PBytes (readlines_binary d2))
  | r => r
  end.

Definition _compare_files (file1 file2 : path) : result (list string * nat * nat) :=
  do lines <- read_lines file1 file2;
  do diff <- Difflib.compare _fancy_replace lines.1 lines.2;
  Ok (diff, length lines.1, length lines.2).

(** The body of the [try] of [_compare_file_pair], up to [differences]. *)
Definition pair_differences (p : pair) : result (list Classifier.DiffRecord) :=
  do r <- _compare_files (file1 p) (file2 p);
  Classifier._analyze_differences r.1.1.

(** [_compare_file_pair(pair)]: [(is_identical, diff_count)], and what it
    logs as errors.  [except Exception] takes every exception ([OutOfFuel]
    never comes from the aligner: lemma [compare_fuel]). *)
Definition _compare_file_pair (p : pair) : (bool * Z) * list log_record :=
  match pair_differences p with
  | Ok differences =>
      match differences with
      | [] => ((true, 0%Z), [])
      | _ => ((false, Z.of_nat (length differences)), [])
      end
  | Raise e => ((false, (-1)%Z), [LogPairError (folder p) e])
  end.

(** An element of [results['details']]. *)
Record detail : Type := mkDetail {
  d_folder : string;        (* 'folder' *)
  is_identical : bool;
  differences : Z;
  d_file1 : path;           (* 'file1' *)
  d_file2 : path            (* 'file2' *)
}.

(** The dict [results]. *)
Record results : Type := mkResults {
  total_folders : Z;
  identical_count : Z;
  different_count : Z;
  error_count : Z;
  total_differences : Z;
  different_folders : list string;
  details : list detail
}.

(** One iteration of [for pair in file_pairs]. *)
Definition run_step (res : results) (p : pair) : results * list log_record :=
  let '((is_identical, diff_count), logs) := _compare_file_pair p in
  let result := mkDetail (folder p) is_identical diff_count (file1 p) (file2 p) in
  let details' := details res ++ [result] in
  let res' :=
    if is_identical then
      mkResults (total_folders res) (identical_count res + 1) (different_count res)
        (error_count res) (total_differences res) (different_folders res) details'
    else if (0 <? diff_count)%Z then
      mkResults (total_folders res) (identical_count res) (different_count res + 1)
        (error_count res) (total_differences res + diff_count)
        (different_folders res ++ [folder p]) details'
    else
      mkResults (total_folders res) (identical_count res) (different_count res)
        (error_count res + 1) (total_differences res) (different_folders res) details' in
  (res', logs).

Fixpoint run_loop (file_pairs : list pair) (res : results) (logs : list log_record)
  : results * list log_record :=
  match file_pairs with
  | [] => (res, logs)
  | p :: rest =>
      let '(res', logs') := run_step res p in
      run_loop rest res' (logs ++ logs')
  end.

(** [run()]: the summary, or [None], and the error records logged. *)
Definition run : option results * list log_record :=
  let file_pairs := _find_file_pairs in
  match file_pairs with
  | [] => (None, [LogNoPairs])
  | _ =>
      let res := mkResults (Z.of_nat (length file_pairs)) 0 0 0 0 [] [] in
      let '(res', logs) := run_loop file_pairs res [] in
      (Some res', logs)
  end.

End Comparator.

(** A detail record that [run] counts as different, and the sum of the
    difference counts of those. *)
Definition counted_different (d : detail) : bool :=
  negb (is_identical d) && (0 <? differences d)%Z.

Definition sum_differences (ds : list detail) : Z :=
  foldr (fun d acc => if counted_different d then (differences d + acc)%Z else acc) 0%Z ds.

End CompareTxt.

(** * [Compare_nc_txt.py] *)
Module CompareNc.

(** [s.endswith(suffix)]. *)
Definition endswith (s suffix : string) : bool :=
  let n := String.length s in
  let m := String.length suffix in
  (m <=? n) && String.eqb (slice_from (n - m) s) suffix.

(** An element of [comparison_results]: the three shapes of the dict, by
    its ['status'].  An entry with status ['error'] has the keys
    ['status'], ['error'] and ['ext'] only. *)
Inductive comparison : Type :=
  | Identical (file1 file2 ext : string)                      (* 'differences': 0 *)
  | Different (file1 file2 ext : string) (differences : Z)
  | Error (error : exn) (ext : string).

(** [comp.get('differences')]. *)
Definition differences (comp : comparison) : option Z :=
  match comp with
  | Identical _ _ _ => Some 0%Z
  | Different _ _ _ d => Some d
  | Error _ _ => None
  end.

(** The value of a folder in [file_groups]. *)
Record folder_info : Type := mkInfo {
  folder_path : path;
  files_by_ext : gmap string (list string)
}.

(** What [_compare_in_folder] returns. *)
Record folder_result : Type := mkFolderResult {
  comparisons : list comparison;
  folder : string
}.

(** An element of [results['different_files']]. *)
Record different_file : Type := mkDifferentFile {
  df_folder : string;   (* 'folder' *)
  df_file1 : string;    (* 'file1' *)
  df_file2 : string;    (* 'file2' *)
  df_ext : string;      (* 'ext' *)
  df_differences : Z    (* 'differences' *)
}.

(** The dict [results]. *)
Record results : Type := mkResults {
  total_folders : Z;
  compared_pairs : Z;
  identical_pairs : Z;
  different_pairs : Z;
  error_pairs : Z;
  total_differences : Z;
  different_files : list different_file;
  details : list folder_result
}.

Section Comparator.

(** [Differ._fancy_replace], [str.lower], and the attributes of the
    comparator ([file_exts] is already in lower case). *)
Variable _fancy_replace :
  list pyline -> nat -> nat -> list pyline -> nat -> nat -> result (list string).
Variable lower : string -> string.
Variable parent_dir : list (string * node).
Variable file_exts : list string.

(** [for ext in self.file_exts: if file_lower.endswith(ext): ...; break]:
    the first extension that ends the name. *)
Definition first_ext (file_lower : string) : option string :=
  List.find (fun ext => endswith file_lower ext) file_exts.

(** The loop over the files of a folder; the paths of the folder are
    kept by their file names. *)
Fixpoint classify_files (files : list string) (ext_files : gmap string (list string))
  : gmap string (list string) :=
  match files with
  | [] => ext_files
  | file :: rest =>
      let ext_files :=
        match first_ext (lower file) with
        | Some ext => <[ext := default [] (ext_files !! ext) ++ [file]]> ext_files
        | None => ext_files
        end in
      classify_files rest ext_files
  end.

(** The paths of a folder begin alike, so they sort as their names do. *)
Definition sort_names (names : list string) : list string :=
  merge_sort (fun x y => Is_true (String.leb x y)) names.

Definition _find_files : list (string * folder_info) :=
  flat_map
    (fun folder =>
       let folder_path := [folder] in
       match resolve parent_dir folder_path with
       | Some (Dir entries) =>
           let ext_files :=
             list_to_map (map (fun ext => (ext, [])) file_exts) in
           let ext_files := classify_files (listdir entries) ext_files in
           let ext_files := sort_names <$> ext_files in
           [(folder, mkInfo folder_path ext_files)]
       | _ => []
       end)
    (listdir parent_dir).

(** [_compare_files]: as in [Compare_txt.py], but the lines read in
    binary mode are decoded as Latin-1. *)
Definition read_lines (file1 file2 : path) : result (list pyline * list pyline) :=
  let primary :=
    do d1 <- open_read parent_dir file1;
    do d2 <- open_read parent_dir file2;
    do lines1 <- readlines_text d1;
    do lines2 <- readlines_text d2;
    Ok (lines1, lines2) in
  match primary with
  | Raise UnicodeDecodeError =>
      do d1 <- open_read parent_dir file1;
      do d2 <- open_read parent_dir file2;
      Ok (map (fun line => PStr (decode_latin1 line)) (readlines_binary d1),
          map (fun line => PStr (decode_latin1 line)) (readlines_binary d2))
  | r => r
  end.

Definition _compare_files (file1 file2 : path) : result (list string * nat * nat) :=
  do lines <- read_lines file1 file2;
  do diff <- Difflib.compare _fancy_replace lines.1 lines.2;
  Ok (diff, length lines.1, length lines.2).

(** One iteration of [for ext in self.file_exts] in [_compare_in_folder]:
    the entries and the error records it adds. *)
Definition compare_ext (info : folder_info) (ext : string)
  : list comparison * list log_record :=
  match default [] (files_by_ext info !! ext) with
  | file1_name :: file2_name :: _ =>
      let file1 := folder_path info ++ [file1_name] in
      let file2 := folder_path info ++ [file2_name] in
      match (do r <- _compare_files file1 file2;
             Classifier._analyze_differences r.1.1) with
      | Ok [] => ([Identical file1_name file2_name ext], [])
      | Ok ds => ([Different file1_name file2_name ext (Z.of_nat (length ds))], [])
      | Raise e => ([Error e ext], [LogCompareError e])
      end
  | _ => ([], [])
  end.

Fixpoint compare_exts (info : folder_info) (exts : list string)
  : list comparison * list log_record :=
  match exts with
  | [] => ([], [])
  | ext :: rest =>
      let '(c1, l1) := compare_ext info ext in
      let '(c2, l2) := compare_exts info rest in
      (c1 ++ c2, l1 ++ l2)
  end.

Definition _compare_in_folder (folder : string) (info : folder_info)
  : folder_result * list log_record :=
  let '(comparison_results, logs) := compare_exts info file_exts in
  (mkFolderResult comparison_results folder, logs).

(** One iteration of [for comp in result['comparisons']]. *)
Definition count_comparison (folder : string) (res : results) (comp : comparison)
  : results :=
  let compared := (compared_pairs res + 1)%Z in
  match comp with
  | Identical _ _ _ =>
      mkResults (total_folders res) compared (identical_pairs res + 1)
        (different_pairs res) (error_pairs res) (total_differences res)
        (different_files res) (details res)
  | Different file1 file2 ext d =>
      mkResults (total_folders res) compared (identical_pairs res)
        (different_pairs res + 1) (error_pairs res) (total_differences res + d)
        (different_files res ++ [mkDifferentFile folder file1 file2 ext d])
        (details res)
  | Error _ _ =>
      mkResults (total_folders res) compared (identical_pairs res)
        (different_pairs res) (error_pairs res + 1) (total_differences res)
        (different_files res) (details res)
  end.

(** One iteration of [for folder, folder_info in file_groups.items()]. *)
Definition run_step (res : results) (group : string * folder_info)
  : results * list log_record :=
  let '(result, logs) := _compare_in_folder group.1 group.2 in
  let res :=
    mkResults (total_folders res) (compared_pairs res) (identical_pairs res)
      (different_pairs res) (error_pairs res) (total_differences res)
      (different_files res) (details res ++ [result]) in
  (fold_left (count_comparison group.1) (comparisons result) res, logs).

Fixpoint run_loop (file_groups : list (string * folder_info)) (res : results)
    (logs : list log_record) : results * list log_record :=
  match file_groups with
  | [] => (res, logs)
  | group :: rest =>
      let '(res', logs') := run_step res group in
      run_loop rest res' (logs ++ logs')
  end.

(** [run()]: the summary, or [None], and the error records logged. *)
Definition run : option results * list log_record :=
  let file_groups := _find_files in
  match file_groups with
  | [] => (None, [LogNoFolders])
  | _ =>
      let res := mkResults (Z.of_nat (length file_groups)) 0 0 0 0 0 [] [] in
      let '(res', logs) := run_loop file_groups res [] in
      (Some res', logs)
  end.

End Comparator.

(** The difference count of an entry counted as different, and its sum
    over the entries of a list of folder results. *)
Definition different_weight (comp : comparison) : Z :=
  match comp with
  | Different _ _ _ d => d
  | _ => 0%Z
  end.

Definition sum_comparisons (comps : list comparison) : Z :=
  foldr (fun comp acc => (different_weight comp + acc)%Z) 0%Z comps.

Definition sum_differences (frs : list folder_result) : Z :=
  foldr (fun fr acc => (sum_comparisons (comparisons fr) + acc)%Z) 0%Z frs.

End CompareNc.

(** * Notions used by the further properties *)

(** A line of a diff that no branch of the classifier takes: it is not
    empty, does not start with two blanks, and its first character is none
    of ['-'], ['+'], ['?']. *)
Definition ignored_line (ln : string) : bool :=
  negb (startswith ln "  ")
  && match String.get 0 ln with
     | Some c => negb (Ascii.eqb c "-") && negb (Ascii.eqb c "+") && negb (Ascii.eqb c "?")
     | None => false
     end.

(** The last character of a string. *)
Fixpoint last_char (s : string) : option ascii :=
  match s with
  | EmptyString => None
  | String c EmptyString => Some c
  | String _ rest => last_char rest
  end.

(** [k] line feeds. *)
Fixpoint line_feeds (k : nat) : string :=
  match k with
  | O => EmptyString
  | S k' => String LF (line_feeds k')
  end.

Definition is_removed (r : Classifier.AlignmentRecord) : bool :=
  match r with Classifier.Removed _ => true | _ => false end.

(** The number of entries of a type in a list of differences. *)
Definition count_type (t : Classifier.diff_type) (ds : list Classifier.DiffRecord) : nat :=
  length (List.filter (fun d => bool_decide (Classifier.type d = t)) ds).

(** Whether a line is a [str], or a [bytes] object. *)
Definition is_str (l : pyline) : bool :=
  match l with PStr _ => true | PBytes _ => false end.

Definition is_bytes (l : pyline) : bool :=
  match l with PStr _ => false | PBytes _ => true end.

(** [Compare_txt.py]: the three shapes of a detail record, the folder an
    error record is about, and what ties the counters, the list of
    different folders and the error records of a run to its details. *)
Definition is_error_detail (d : CompareTxt.detail) : bool :=
  negb (CompareTxt.is_identical d) && (CompareTxt.differences d =? -1)%Z.

Definition detail_shape (d : CompareTxt.detail) : Prop :=
  (CompareTxt.is_identical d = true /\ CompareTxt.differences d = 0%Z) \/
  (CompareTxt.is_identical d = false /\ (0 < CompareTxt.differences d)%Z) \/
  (CompareTxt.is_identical d = false /\ CompareTxt.differences d = (-1)%Z).

Definition log_folder (r : log_record) : option string :=
  match r with
  | LogPairError folder _ => Some folder
  | _ => None
  end.

Definition count_details (f : CompareTxt.detail -> bool) (ds : list CompareTxt.detail) : Z :=
  Z.of_nat (length (List.filter f ds)).

Definition txt_consistent (res : CompareTxt.results) (logs : list log_record) : Prop :=
  CompareTxt.identical_count res
  = count_details CompareTxt.is_identical (CompareTxt.details res) /\
  CompareTxt.different_count res
  = count_details CompareTxt.counted_different (CompareTxt.details res) /\
  CompareTxt.error_count res
  = count_details is_error_detail (CompareTxt.details res) /\
  CompareTxt.different_folders res
  = map CompareTxt.d_folder
      (List.filter CompareTxt.counted_different (CompareTxt.details res)) /\
  omap log_folder logs
  = map CompareTxt.d_folder (List.filter is_error_detail (CompareTxt.details res)).

(** [Compare_nc_txt.py]: the element of [different_files] that an entry
    with status different gives, the error record that an entry with
    status error gives, and what ties the counters, [different_files] and
    the error records of a run to its details. *)
Definition different_entry (folder : string) (comp : CompareNc.comparison)
  : option CompareNc.different_file :=
  match comp with
  | CompareNc.Different file1 file2 ext d =>
      Some (CompareNc.mkDifferentFile folder file1 file2 ext d)
  | _ => None
  end.

Definition different_entries (fr : CompareNc.folder_result) : list CompareNc.different_file :=
  omap (different_entry (CompareNc.folder fr)) (CompareNc.comparisons fr).

Definition error_record (comp : CompareNc.comparison) : option log_record :=
  match comp with
  | CompareNc.Error e _ => Some (LogCompareError e)
  | _ => None
  end.

Definition is_identical_entry (comp : CompareNc.comparison) : bool :=
  match comp with CompareNc.Identical _ _ _ => true | _ => false end.

Definition all_comparisons (frs : list CompareNc.folder_result) : list CompareNc.comparison :=
  flat_map CompareNc.comparisons frs.

Definition nc_consistent (res : CompareNc.results) (logs : list log_record) : Prop :=
  CompareNc.different_files res = flat_map different_entries (CompareNc.details res) /\
  CompareNc.different_pairs res = Z.of_nat (length (CompareNc.different_files res)) /\
  CompareNc.identical_pairs res
  = Z.of_nat (length (List.filter is_identical_entry (all_comparisons (CompareNc.details res)))) /\
  CompareNc.compared_pairs res
  = Z.of_nat (length (all_comparisons (CompareNc.details res))) /\
  logs = omap error_record (all_comparisons (CompareNc.details res)) /\
  CompareNc.error_pairs res = Z.of_nat (length logs).

(** ** [compare_files_in_directory] of [Compare_txt.py]

    [parent] is what the path [parent_dir] names: nothing, a file, or a
    directory with its entries.  The result is what [run] gives, with what
    is written to the console by the function itself; the set-up of the
    logger, which writes beside the parent directory, is left out. *)
Inductive console_record : Type :=
  | PrintNotADirectory.

Definition compare_files_in_directory
    (_fancy_replace :
       list pyline -> nat -> nat -> list pyline -> nat -> nat -> result (list string))
    (parent : option node) (file1_name file2_name : string)
  : (option CompareTxt.results * list log_record) * list console_record :=
  match parent with
  | Some (Dir entries) => (CompareTxt.run _fancy_replace entries file1_name file2_name, [])
  | _ => ((None, []), [PrintNotADirectory])
  end.

(** * Stand-ins for the closed examples

    A [_fancy_replace] that refuses every call (the examples below never
    reach it), and [str.lower] on names made of ASCII characters. *)
Definition fancy_refuses
    (a : list pyline) (alo ahi : nat) (b : list pyline) (blo bhi : nat)
  : result (list string) :=
  Raise TypeError.

Fixpoint ascii_lower (s : string) : string :=
  match s with
  | EmptyString => EmptyString
  | String c rest =>
      let n := nat_of_ascii c in
      String (if (65 <=? n) && (n <=? 90) then ascii_of_nat (n + 32) else c)
        (ascii_lower rest)
  end.

(** A line [s] with its line feed. *)
Definition nl (s : string) : string := s +:+ String LF EmptyString.

(** Two bytes that are not UTF-8: [\xff\n]. *)
Definition not_utf8 : string := String (ascii_of_nat 255) (String LF EmptyString).

(** * Properties of the classifier *)

Section ClassifierFacts.
Import Classifier.

Lemma bind_Ok {A B : Type} (m : result A) (k : A -> result B) (b : B) :
  bind m k = Ok b -> exists a, m = Ok a /\ k a = Ok b.
Proof. destruct m as [a|e]; simpl; [eauto | discriminate]. Qed.

Lemma analyze_loop_app (d1 d2 : list string) (st : state) :
  analyze_loop (d1 ++ d2) st = (do st' <- analyze_loop d1 st; analyze_loop d2 st').
Proof.
  revert st. induction d1 as [|ln d1 IH]; intros st; simpl; [reflexivity|].
  destruct (analyze_step st ln) as [st'|e]; simpl; [apply IH | reflexivity].
Qed.

(** What one iteration does on each of the four tags. *)
Lemma step_common ds n p :
  analyze_step (ds, n) (render (Common p)) = Ok (ds, n + 1).
Proof. reflexivity. Qed.

Lemma step_removed ds n p :
  analyze_step (ds, n) (render (Removed p))
  = Ok (ds ++ [mkDiff KRemoved (Some (n + 1)) (rstrip LF p)], n).
Proof. reflexivity. Qed.

Lemma step_added ds n p :
  analyze_step (ds, n) (render (Added p))
  = Ok (ds ++ [mkDiff KAdded (Some (n + 1)) (rstrip LF p)], n + 1).
Proof. reflexivity. Qed.

Lemma step_hint ds n p :
  analyze_step (ds, n) (render (Hint p))
  = match last ds with
    | Some d =>
        if decide (type d = KRemoved)
        then Ok (set_last_type KChanged ds ++ [mkDiff KChangedContent None (rstrip LF p)], n)
        else Ok (ds, n)
    | None => Ok (ds, n)
    end.
Proof. reflexivity. Qed.

(** On a rendered record an iteration never raises. *)
Lemma step_render_total st r : exists st', analyze_step st (render r) = Ok st'.
Proof.
  destruct st as [ds n]. destruct r as [p|p|p|p].
  - rewrite step_common; eauto.
  - rewrite step_removed; eauto.
  - rewrite step_added; eauto.
  - rewrite step_hint. destruct (last ds) as [d|]; [|eauto].
    destruct (decide (type d = KRemoved)); eauto.
Qed.

Lemma classify_from_total al st : exists st', classify_from al st = Ok st'.
Proof.
  unfold classify_from. revert st.
  induction al as [|r al IH]; intros st; simpl; [eauto|].
  destruct (step_render_total st r) as [st1 ->]. simpl. apply IH.
Qed.

Lemma classify_from_snoc al r st :
  classify_from (al ++ [r]) st
  = (do st' <- classify_from al st; analyze_step st' (render r)).
Proof.
  unfold classify_from. rewrite map_app, analyze_loop_app. simpl.
  destruct (analyze_loop (map render al) st) as [st'|e]; simpl; [|reflexivity].
  destruct (analyze_step st' (render r)); reflexivity.
Qed.

(** C1.  At every position of an alignment sequence, with [(ds, n)] the
    differences and the line counter reached before the record: a Common
    record leaves [ds] as it is and makes the counter [n + 1]; a Removed
    record appends a removed entry with line [n + 1] and leaves the counter
    at [n]; an Added record appends an added entry with line [n + 1] and
    makes the counter [n + 1]. *)
Theorem classifier_counter_rules (pre : list AlignmentRecord) :
  exists ds n,
    classify_from pre ([], 0) = Ok (ds, n) /\
    (forall p, classify_from (pre ++ [Common p]) ([], 0) = Ok (ds, n + 1)) /\
    (forall p, classify_from (pre ++ [Removed p]) ([], 0)
               = Ok (ds ++ [mkDiff KRemoved (Some (n + 1)) (rstrip LF p)], n)) /\
    (forall p, classify_from (pre ++ [Added p]) ([], 0)
               = Ok (ds ++ [mkDiff KAdded (Some (n + 1)) (rstrip LF p)], n + 1)).
Proof.
  destruct (classify_from_total pre ([], 0)) as [[ds n] Hpre].
  exists ds, n. split; [exact Hpre|].
  repeat split; intros p; rewrite classify_from_snoc, Hpre; reflexivity.
Qed.

Lemma classify_from_cons r al st :
  classify_from (r :: al) st
  = (do st' <- analyze_step st (render r); classify_from al st').
Proof. reflexivity. Qed.

Lemma count_tag_cons f r al :
  count_tag f (r :: al) = (if f r then 1 else 0) + count_tag f al.
Proof. unfold count_tag. simpl. destruct (f r); reflexivity. Qed.

Lemma classify_from_counter al : forall ds n,
  exists ds',
    classify_from al (ds, n)
    = Ok (ds', n + count_tag is_added al + count_tag is_common al).
Proof.
  induction al as [|r al IH]; intros ds n.
  - exists ds. unfold classify_from, count_tag. simpl. do 2 f_equal. lia.
  - rewrite classify_from_cons, !count_tag_cons.
    destruct r as [p|p|p|p].
    + rewrite step_common. simpl bind. destruct (IH ds (n + 1)) as [ds' ->].
      exists ds'. simpl. do 2 f_equal. lia.
    + rewrite step_removed. simpl bind.
      destruct (IH (ds ++ [mkDiff KRemoved (Some (n + 1)) (rstrip LF p)]) n) as [ds' ->].
      exists ds'. reflexivity.
    + rewrite step_added. simpl bind.
      destruct (IH (ds ++ [mkDiff KAdded (Some (n + 1)) (rstrip LF p)]) (n + 1)) as [ds' ->].
      exists ds'. simpl. do 2 f_equal. lia.
    + rewrite step_hint. destruct (last ds) as [d|]; [destruct (decide (type d = KRemoved))|];
        simpl bind; apply IH.
Qed.

(** C5.  For an alignment sequence with [k] Added and [m] Common records,
    whatever its Removed and Hint records, the line counter is [k + m] when
    the loop ends. *)
Theorem line_counter_counts_added_and_common (al : list AlignmentRecord) :
  final_line_num (map render al)
  = Ok (count_tag is_added al + count_tag is_common al).
Proof.
  unfold final_line_num.
  destruct (classify_from_counter al [] 0) as [ds' H].
  unfold classify_from in H. rewrite H. reflexivity.
Qed.

(** C3.  A Hint record met when the last emitted entry is not an unpromoted
    removed entry (nothing emitted yet, or the last entry is added, changed
    or changed-content) is dropped: the differences and the line counter
    stay as they were, and the rest of the sequence is processed from
    there. *)
Theorem hint_without_removed_is_dropped
    (pre suf : list AlignmentRecord) (p : string) (ds : list DiffRecord) (n : nat) :
  classify_from pre ([], 0) = Ok (ds, n) ->
  (forall d, last ds = Some d -> type d <> KRemoved) ->
  classify_from (pre ++ [Hint p]) ([], 0) = Ok (ds, n) /\
  classify_from (pre ++ Hint p :: suf) ([], 0) = classify_from suf (ds, n).
Proof.
  intros Hpre Hlast.
  assert (Hstep : analyze_step (ds, n) (render (Hint p)) = Ok (ds, n)).
  { rewrite step_hint. destruct (last ds) as [d|]; [|reflexivity].
    destruct (decide (type d = KRemoved)) as [Hd|Hd]; [|reflexivity].
    exfalso. exact (Hlast d eq_refl Hd). }
  split.
  - rewrite classify_from_snoc, Hpre. exact Hstep.
  - unfold classify_from in *. rewrite map_app, analyze_loop_app, Hpre.
    cbn [bind map analyze_loop]. rewrite Hstep. reflexivity.
Qed.

Lemma hint_without_removed_is_dropped_witness :
  classify_from ([Common "a"; Added "b"] ++ [Hint " ^"]) ([], 0)
    = Ok ([mkDiff KAdded (Some 2) "b"], 2) /\
  classify_from ([Common "a"; Added "b"] ++ Hint " ^" :: [Removed "c"]) ([], 0)
    = classify_from [Removed "c"] ([mkDiff KAdded (Some 2) "b"], 2).
Proof.
  apply (hint_without_removed_is_dropped [Common "a"; Added "b"] [Removed "c"] " ^"
           [mkDiff KAdded (Some 2) "b"] 2).
  - reflexivity.
  - intros d Hd. vm_compute in Hd. inversion Hd. discriminate.
Defined.

(** *** The shape of the output *)

Lemma set_last_type_snoc t ds0 d :
  set_last_type t (ds0 ++ [d]) = ds0 ++ [mkDiff t (line d) (content d)].
Proof. unfold set_last_type. rewrite last_snoc, removelast_last. reflexivity. Qed.

Lemma last_Some_snoc {A : Type} (l : list A) (x : A) :
  last l = Some x -> exists l0, l = l0 ++ [x].
Proof.
  destruct l as [|y l] using rev_ind; [discriminate|].
  rewrite last_snoc. intros [= ->]. eauto.
Qed.

(** Every way an iteration that returns can change the state, for any
    line of text: nothing emitted, a removed or an added entry appended, or
    the last entry, a removed one, promoted and followed by its
    changed-content entry (only on a line that starts with a question mark). *)
Lemma analyze_step_cases ds n ln ds' n' :
  analyze_step (ds, n) ln = Ok (ds', n') ->
  (ds' = ds /\ (n' = n \/ n' = n + 1)) \/
  (exists c, ds' = ds ++ [mkDiff KRemoved (Some (n + 1)) c] /\ n' = n) \/
  (exists c, ds' = ds ++ [mkDiff KAdded (Some (n + 1)) c] /\ n' = n + 1) \/
  (exists ds0 d,
      ds = ds0 ++ [d] /\ type d = KRemoved /\ n' = n /\
      String.get 0 ln = Some "?"%char /\
      ds' = ds0 ++ [mkDiff KChanged (line d) (content d);
                    mkDiff KChangedContent None (rstrip LF (slice_from 2 ln))]).
Proof.
  unfold analyze_step.
  destruct (startswith ln "  "); [intros [= <- <-]; left; auto|].
  destruct (String.get 0 ln) as [c|]; [|discriminate].
  destruct (Ascii.eqb c "-"); [intros [= <- <-]; right; left; eauto|].
  destruct (Ascii.eqb c "+"); [intros [= <- <-]; right; right; left; eauto|].
  destruct (Ascii.eqb_spec c "?") as [->|_]; [|intros [= <- <-]; left; auto].
  destruct (last ds) as [d|] eqn:Hlast; [|intros [= <- <-]; left; auto].
  destruct (decide (type d = KRemoved)) as [Hd|_]; [|intros [= <- <-]; left; auto].
  intros [= <- <-]. right; right; right.
  destruct (last_Some_snoc ds d Hlast) as [ds0 ->].
  exists ds0, d. rewrite set_last_type_snoc, <- app_assoc. auto.
Qed.

Lemma well_formed_app ds1 ds2 :
  well_formed ds1 -> well_formed ds2 -> well_formed (ds1 ++ ds2).
Proof. induction 1; intros H2; simpl; [assumption | constructor; auto ..]. Qed.

Lemma well_formed_snoc_removed ds0 d :
  well_formed (ds0 ++ [d]) -> type d = KRemoved ->
  well_formed ds0 /\ exists l, line d = Some l.
Proof.
  intros Hwf Hd. remember (ds0 ++ [d]) as ds eqn:E. revert ds0 E.
  induction Hwf as [|l c ds Hwf IH|l c ds Hwf IH|l c c' ds Hwf IH]; intros ds0 E.
  - destruct ds0; discriminate.
  - destruct ds0 as [|x ds0]; simpl in E.
    + injection E as <- ->. split; [constructor | eauto].
    + injection E as <- ->. destruct (IH ds0 eq_refl) as [H1 H2].
      split; [constructor; assumption | assumption].
  - destruct ds0 as [|x ds0]; simpl in E.
    + injection E as <- ->. discriminate.
    + injection E as <- ->. destruct (IH ds0 eq_refl) as [H1 H2].
      split; [constructor; assumption | assumption].
  - destruct ds0 as [|x [|y ds0]]; simpl in E.
    + discriminate.
    + injection E as <- <- ->. discriminate.
    + injection E as <- <- ->. destruct (IH ds0 eq_refl) as [H1 H2].
      split; [constructor; assumption | assumption].
Qed.

Lemma analyze_step_well_formed ds n ln ds' n' :
  analyze_step (ds, n) ln = Ok (ds', n') -> well_formed ds -> well_formed ds'.
Proof.
  intros Hstep Hwf.
  destruct (analyze_step_cases _ _ _ _ _ Hstep)
    as [[-> _]|[(c & -> & _)|[(c & -> & _)|(ds0 & d & -> & Hd & _ & _ & ->)]]].
  - assumption.
  - apply well_formed_app; [assumption | repeat constructor].
  - apply well_formed_app; [assumption | repeat constructor].
  - destruct (well_formed_snoc_removed _ _ Hwf Hd) as [Hwf0 [l ->]].
    apply well_formed_app; [assumption | repeat constructor].
Qed.

Lemma analyze_loop_well_formed diff : forall ds n ds' n',
  analyze_loop diff (ds, n) = Ok (ds', n') -> well_formed ds -> well_formed ds'.
Proof.
  induction diff as [|ln diff IH]; intros ds n ds' n'; simpl.
  - intros [= <- <-]. auto.
  - intros H Hwf. apply bind_Ok in H as ([ds1 n1] & Hstep & Hrest).
    eapply IH; [exact Hrest|]. eapply analyze_step_well_formed; eassumption.
Qed.

Lemma well_formed_changed_content ds :
  well_formed ds ->
  forall i d, ds !! i = Some d -> type d = KChangedContent ->
  exists j d', i = S j /\ ds !! j = Some d' /\ type d' = KChanged.
Proof.
  induction 1 as [|l c ds Hwf IH|l c ds Hwf IH|l c c' ds Hwf IH]; intros i d Hi Hd.
  - discriminate.
  - destruct i as [|i]; simpl in Hi; [injection Hi as <-; discriminate|].
    destruct (IH i d Hi Hd) as (j & d' & -> & Hj & Hd'). exists (S j), d'. auto.
  - destruct i as [|i]; simpl in Hi; [injection Hi as <-; discriminate|].
    destruct (IH i d Hi Hd) as (j & d' & -> & Hj & Hd'). exists (S j), d'. auto.
  - destruct i as [|[|i]]; simpl in Hi.
    + injection Hi as <-. discriminate.
    + exists 0, (mkDiff KChanged (Some l) c). auto.
    + destruct (IH i d Hi Hd) as (j & d' & -> & Hj & Hd'). exists (S (S j)), d'. auto.
Qed.

Lemma well_formed_line ds :
  well_formed ds ->
  forall d, d ∈ ds -> line d = None <-> type d = KChangedContent.
Proof.
  induction 1 as [|l c ds Hwf IH|l c ds Hwf IH|l c c' ds Hwf IH]; intros d Hin.
  - inversion Hin.
  - apply elem_of_cons in Hin as [->|Hin]; [split; discriminate | auto].
  - apply elem_of_cons in Hin as [->|Hin]; [split; discriminate | auto].
  - apply elem_of_cons in Hin as [->|Hin]; [split; discriminate|].
    apply elem_of_cons in Hin as [->|Hin]; [split; reflexivity | auto].
Qed.

Lemma render_question_mark r :
  String.get 0 (render r) = Some "?"%char -> exists p, r = Hint p.
Proof. destruct r as [p|p|p|p]; intros H; cbv in H; try discriminate. eauto. Qed.

(** Where a changed entry comes from: a Hint record met while the last
    entry, at the same index, was a removed entry with the same line and
    content. *)
Lemma changed_provenance al : forall ds n,
  classify_from al ([], 0) = Ok (ds, n) ->
  forall i d, ds !! i = Some d -> type d = KChanged ->
  exists pre p suf ds0 n0 r,
    al = pre ++ Hint p :: suf /\
    classify_from pre ([], 0) = Ok (ds0 ++ [r], n0) /\
    type r = KRemoved /\ length ds0 = i /\
    d = mkDiff KChanged (line r) (content r).
Proof.
  induction al as [|a al IH] using rev_ind; intros ds n Hal i d Hi Hd.
  - injection Hal as <- <-. discriminate.
  - rewrite classify_from_snoc in Hal.
    apply bind_Ok in Hal as ([ds1 n1] & Hal & Hstep).
    assert (Hold : ds1 !! i = Some d ->
      exists pre p suf ds0 n0 r,
        al ++ [a] = pre ++ Hint p :: suf /\
        classify_from pre ([], 0) = Ok (ds0 ++ [r], n0) /\
        type r = KRemoved /\ length ds0 = i /\
        d = mkDiff KChanged (line r) (content r)).
    { intros Hi1.
      destruct (IH ds1 n1 Hal i d Hi1 Hd) as (pre & p & suf & ds0 & n0 & r & -> & H).
      exists pre, p, (suf ++ [a]), ds0, n0, r. rewrite <- app_assoc. auto. }
    destruct (analyze_step_cases _ _ _ _ _ Hstep)
      as [[-> _]|[(c & -> & _)|[(c & -> & _)|(ds0 & r & -> & Hr & _ & Hq & ->)]]].
    + auto.
    + apply lookup_snoc_Some in Hi as [[_ Hi]|[_ <-]]; [auto | discriminate].
    + apply lookup_snoc_Some in Hi as [[_ Hi]|[_ <-]]; [auto | discriminate].
    + apply lookup_app_Some in Hi as [Hi|[Hlen Hi]].
      * apply Hold. apply lookup_app_l_Some. exact Hi.
      * destruct (i - length ds0) as [|[|k]] eqn:E; simpl in Hi.
        -- injection Hi as <-. destruct (render_question_mark a Hq) as [p ->].
           exists al, p, [], ds0, n1, r. repeat split; auto. lia.
        -- injection Hi as <-. discriminate.
        -- discriminate.
Qed.

(** C2.  In the output of the classifier every changed-content entry has
    a changed entry immediately before it, and every changed entry, at
    index [i], comes from a Hint record of the sequence, met when the last
    entry emitted so far, at the same index [i], was a removed entry: it is
    that entry with its type replaced. *)
Theorem changed_content_follows_changed (al : list AlignmentRecord) :
  exists ds,
    _analyze_differences (map render al) = Ok ds /\
    (forall i d, ds !! i = Some d -> type d = KChangedContent ->
       exists j d', i = S j /\ ds !! j = Some d' /\ type d' = KChanged) /\
    (forall i d, ds !! i = Some d -> type d = KChanged ->
       exists pre p suf ds0 n0 r,
         al = pre ++ Hint p :: suf /\
         classify_from pre ([], 0) = Ok (ds0 ++ [r], n0) /\
         type r = KRemoved /\ length ds0 = i /\
         d = mkDiff KChanged (line r) (content r)).
Proof.
  destruct (classify_from_total al ([], 0)) as [[ds n] Hal].
  exists ds. unfold _analyze_differences.
  assert (Hraw := Hal). unfold classify_from in Hraw. rewrite Hraw.
  split; [reflexivity|]. split.
  - apply well_formed_changed_content.
    eapply analyze_loop_well_formed; [exact Hraw | constructor].
  - exact (changed_provenance al ds n Hal).
Qed.

(** *** Line numbers *)

Lemma lines_inv_snoc ds n n' t c :
  n <= n' ->
  lines_inv (ds, n) -> lines_inv (ds ++ [mkDiff t (Some (n + 1)) c], n').
Proof.
  unfold lines_inv, line_numbers. simpl. intros Hn [Hs Hb].
  rewrite omap_app. simpl. split.
  - apply StronglySorted_app_2; [|assumption|repeat constructor].
    intros x1 x2 H1 H2. apply list_elem_of_singleton in H2 as ->.
    rewrite Forall_forall in Hb. exact (Hb x1 H1).
  - apply Forall_app. split; [|repeat constructor; lia].
    eapply Forall_impl; [exact Hb|]. simpl. intros; lia.
Qed.

Lemma analyze_step_lines_inv st ln st' :
  analyze_step st ln = Ok st' -> lines_inv st -> lines_inv st'.
Proof.
  destruct st as [ds n], st' as [ds' n']. intros Hstep Hinv.
  destruct (analyze_step_cases _ _ _ _ _ Hstep)
    as [[-> Hn]|[(c & -> & ->)|[(c & -> & ->)|(ds0 & r & -> & Hr & -> & _ & ->)]]].
  - destruct Hinv as [Hs Hb]. split; [assumption|]. simpl in *.
    eapply Forall_impl; [exact Hb|]. simpl. intros; lia.
  - apply lines_inv_snoc; [lia | assumption].
  - apply lines_inv_snoc; [lia | assumption].
  - unfold lines_inv, line_numbers in *. simpl in *.
    rewrite omap_app in *. simpl in *. destruct (line r); assumption.
Qed.

Lemma analyze_loop_lines_inv diff : forall st st',
  analyze_loop diff st = Ok st' -> lines_inv st -> lines_inv st'.
Proof.
  induction diff as [|ln diff IH]; intros st st'; simpl.
  - intros [= <-]. auto.
  - intros H Hinv. apply bind_Ok in H as (st1 & Hstep & Hrest).
    eapply IH; [exact Hrest|]. eapply analyze_step_lines_inv; eassumption.
Qed.

(** C9.  The line numbers attached to the entries of the output (the
    removed, added and changed entries: exactly those that carry one), read
    in output order, never decrease. *)
Theorem line_numbers_never_decrease (al : list AlignmentRecord) :
  exists ds,
    _analyze_differences (map render al) = Ok ds /\
    (forall d, d ∈ ds -> line d = None <-> type d = KChangedContent) /\
    StronglySorted le (line_numbers ds).
Proof.
  destruct (classify_from_total al ([], 0)) as [[ds n] Hal].
  exists ds. unfold _analyze_differences.
  unfold classify_from in Hal. rewrite Hal.
  split; [reflexivity|]. split.
  - apply well_formed_line.
    eapply analyze_loop_well_formed; [exact Hal | constructor].
  - apply (analyze_loop_lines_inv _ _ _ Hal). split; constructor.
Qed.

End ClassifierFacts.

(** * Properties of the aligner on equal sequences *)

Section DifflibFacts.
Import Difflib.

Lemma positions_elem x b : forall i j,
  j ∈ positions x b i <-> i <= j /\ b !! (j - i) = Some x.
Proof.
  induction b as [|y b IH]; intros i j; simpl.
  - split; [intros H; inversion H | intros [_ H]; discriminate].
  - rewrite elem_of_app, IH. destruct (decide (x = y)) as [->|Hne].
    + rewrite list_elem_of_singleton. split.
      * intros [->|[Hle Hj]].
        -- split; [lia|]. replace (i - i) with 0 by lia. reflexivity.
        -- split; [lia|]. replace (j - i) with (S (j - S i)) by lia. exact Hj.
      * intros [Hle Hj]. destruct (decide (j = i)) as [->|Hji]; [left; reflexivity|].
        right. split; [lia|].
        replace (j - i) with (S (j - S i)) in Hj by lia. exact Hj.
    + split.
      * intros [H|[Hle Hj]]; [inversion H|].
        split; [lia|]. replace (j - i) with (S (j - S i)) by lia. exact Hj.
      * intros [Hle Hj]. right.
        destruct (decide (j = i)) as [->|Hji].
        -- replace (i - i) with 0 in Hj by lia. simpl in Hj. congruence.
        -- split; [lia|]. replace (j - i) with (S (j - S i)) in Hj by lia. exact Hj.
Qed.

Lemma positions_sorted x b : forall i, StronglySorted lt (positions x b i).
Proof.
  induction b as [|y b IH]; intros i; simpl; [constructor|].
  destruct (decide (x = y)); simpl; [|apply IH].
  constructor; [apply IH|].
  apply Forall_forall. intros j Hj. apply positions_elem in Hj. lia.
Qed.

Lemma chain_b_loop_lookup x b : forall i m,
  chain_b_loop b i m !! x
  = match positions x b i with
    | [] => m !! x
    | l => Some (default [] (m !! x) ++ l)
    end.
Proof.
  induction b as [|y b IH]; intros i m; simpl; [reflexivity|].
  rewrite IH. destruct (decide (x = y)) as [->|Hne]; simpl.
  - rewrite lookup_insert_eq. simpl.
    destruct (positions y b (S i)); simpl; rewrite <- ?app_assoc; reflexivity.
  - rewrite lookup_insert_ne by congruence. reflexivity.
Qed.

(** What [b2j] holds after [__chain_b]: under a key, its positions. *)
Lemma chain_b_lookup b x js :
  chain_b b !! x = Some js -> js = positions x b 0.
Proof.
  unfold chain_b.
  assert (H : chain_b_loop b 0 ∅ !! x = Some js -> js = positions x b 0).
  { rewrite chain_b_loop_lookup, lookup_empty. simpl.
    destruct (positions x b 0); [discriminate | intros [= <-]; reflexivity]. }
  destruct (200 <=? length b); [|exact H].
  intros Hf. apply map_lookup_filter_Some in Hf as [Hf _]. auto.
Qed.


(** *** The longest match of a sequence with itself *)

Section SelfMatch.

Variable a : list pyline.
Variable b2j : gmap pyline (list nat).
Hypothesis b2j_positions : forall x js, b2j !! x = Some js -> js = positions x a 0.

Lemma drun_le m : drun a b2j m <= m + 1.
Proof.
  induction m as [|m IH]; simpl.
  - destruct (a !! 0); [|lia]. case_bool_decide; lia.
  - destruct (a !! S m); [|lia]. case_bool_decide; lia.
Qed.

Lemma drun_key m x :
  a !! m = Some x -> is_Some (b2j !! x) -> drun a b2j m = dprev a b2j m + 1.
Proof.
  intros Hm Hx. destruct m as [|m]; simpl; rewrite Hm;
    rewrite bool_decide_eq_true_2 by assumption; reflexivity.
Qed.

Lemma drun_nokey m x :
  a !! m = Some x -> b2j !! x = None -> drun a b2j m = 0.
Proof.
  intros Hm Hx. destruct m as [|m]; simpl; rewrite Hm;
    (rewrite bool_decide_eq_false_2; [reflexivity|]);
    rewrite Hx; intros [? ?]; discriminate.
Qed.

Lemma j2lenget_bound (j2len : gmap nat nat) (B j : nat) :
  (forall j k, j2len !! j = Some k -> k <= B /\ k <= drun a b2j j) ->
  j2lenget j2len j <= B /\ j2lenget j2len j <= dprev a b2j j.
Proof.
  intros H. destruct j as [|j]; simpl; [lia|].
  destruct (j2len !! j) as [k|] eqn:E; simpl; [apply H; exact E | lia].
Qed.

(** One row of the table: the best block stays on the diagonal. *)
Lemma flm_inner_inv (i : nat) (x : pyline) (j2len : gmap nat nat) :
  a !! i = Some x -> is_Some (b2j !! x) ->
  (forall j k, j2len !! j = Some k -> k <= dprev a b2j i /\ k <= drun a b2j j) ->
  j2lenget j2len i = dprev a b2j i ->
  forall js (new : gmap nat nat) bi bs,
    StronglySorted lt js ->
    (forall j, j ∈ js -> j < length a /\ a !! j = Some x) ->
    (forall j k, new !! j = Some k -> k <= drun a b2j i /\ k <= drun a b2j j) ->
    bi + bs <= length a ->
    (forall m, m < i -> drun a b2j m <= bs) ->
    (i ∈ js \/ (new !! i = Some (drun a b2j i) /\ drun a b2j i <= bs)) ->
    exists new' bi' bs',
      flm_inner js i 0 (length a) j2len new (bi, bi, bs) = (new', (bi', bi', bs')) /\
      (forall j k, new' !! j = Some k -> k <= drun a b2j i /\ k <= drun a b2j j) /\
      bi' + bs' <= length a /\
      (forall m, m < S i -> drun a b2j m <= bs') /\
      new' !! i = Some (drun a b2j i).
Proof.
  intros Hi Hx HJ1 HJ2.
  assert (Hdi : drun a b2j i = dprev a b2j i + 1) by (eapply drun_key; eassumption).
  induction js as [|j js IH]; intros new bi bs Hsort Hjs HA1 Hb HB2 Hdis.
  - destruct Hdis as [Hin|[Hnew Hle]]; [inversion Hin|].
    exists new, bi, bs.
    split; [reflexivity|]. split; [exact HA1|]. split; [exact Hb|]. split; [|exact Hnew].
    intros m Hm. destruct (decide (m = i)) as [->|]; [assumption | apply HB2; lia].
  - apply StronglySorted_cons in Hsort as [Hall Hsort].
    rewrite Forall_forall in Hall.
    destruct (Hjs j) as [Hjn Haj]; [left|].
    assert (Hdj : drun a b2j j = dprev a b2j j + 1) by (eapply drun_key; eassumption).
    destruct (j2lenget_bound j2len (dprev a b2j i) j HJ1) as [Hk1 Hk2].
    simpl flm_inner.
    destruct (Nat.leb_spec (length a) j) as [Hge|_]; [lia|].
    set (k := j2lenget j2len j + 1).
    assert (HA1' : forall j0 k0, <[j:=k]> new !! j0 = Some k0 ->
                     k0 <= drun a b2j i /\ k0 <= drun a b2j j0).
    { intros j0 k0. destruct (decide (j = j0)) as [<-|Hne].
      - rewrite lookup_insert_eq. intros [= <-]. unfold k. lia.
      - rewrite lookup_insert_ne by assumption. apply HA1. }
    assert (Hjs' : forall j0, j0 ∈ js -> j0 < length a /\ a !! j0 = Some x)
      by (intros j0 Hj0; apply Hjs; right; assumption).
    destruct (lt_eq_lt_dec j i) as [[Hlt|Heq]|Hgt].
    + (* below the diagonal: no new best *)
      assert (Hbs : drun a b2j j <= bs) by (apply HB2; assumption).
      destruct (Nat.ltb_spec bs k) as [Hbk|_]; [unfold k in Hbk; lia|].
      apply IH; auto.
      destruct Hdis as [Hin|[Hnew Hle]].
      * left. apply elem_of_cons in Hin as [->|Hin]; [lia | assumption].
      * right. rewrite lookup_insert_ne by lia. auto.
    + (* on the diagonal *)
      subst j. assert (Hk : k = drun a b2j i) by (unfold k; lia).
      pose proof (drun_le i) as Hdle.
      destruct (Nat.ltb_spec bs k) as [Hbk|Hbk].
      * replace (i + 1 - k) with (i + 1 - k) by reflexivity.
        apply IH; auto; try lia.
        -- intros m Hm. specialize (HB2 m Hm). lia.
        -- right. rewrite lookup_insert_eq. split; [congruence | lia].
      * apply IH; auto.
        right. rewrite lookup_insert_eq. split; [congruence | lia].
    + (* above the diagonal: the diagonal entry of the row is already the best *)
      assert (Hnotin : i ∉ j :: js).
      { intros Hin. apply elem_of_cons in Hin as [->|Hin]; [lia|].
        specialize (Hall i Hin). lia. }
      destruct Hdis as [Hin|[Hnew Hle]]; [contradiction|].
      destruct (Nat.ltb_spec bs k) as [Hbk|_]; [unfold k in Hbk; lia|].
      apply IH; auto.
      right. rewrite lookup_insert_ne by lia. auto.
Qed.

(** The table, row after row. *)
Lemma flm_outer_inv : forall d i (j2len : gmap nat nat) bi bs,
  i + d = length a ->
  (forall j k, j2len !! j = Some k -> k <= dprev a b2j i /\ k <= drun a b2j j) ->
  j2lenget j2len i = dprev a b2j i ->
  bi + bs <= length a ->
  (forall m, m < i -> drun a b2j m <= bs) ->
  exists bi' bs',
    flm_outer a b2j (seq i d) 0 (length a) j2len (bi, bi, bs) = Ok (bi', bi', bs') /\
    bi' + bs' <= length a.
Proof.
  induction d as [|d IH]; intros i j2len bi bs Hid HJ1 HJ2 Hb HB2.
  - exists bi, bs. split; [reflexivity | assumption].
  - simpl seq. simpl flm_outer. unfold getitem.
    destruct (a !! i) as [x|] eqn:Hi;
      [|apply lookup_ge_None in Hi; lia].
    simpl bind. destruct (b2j !! x) as [js|] eqn:Hx; simpl default.
    + pose proof (b2j_positions x js Hx) as ->.
      destruct (flm_inner_inv i x j2len Hi (ltac:(rewrite Hx; eauto)) HJ1 HJ2
                  (positions x a 0) ∅ bi bs) as (new' & bi' & bs' & -> & H1 & H2 & H3 & H4).
      * apply positions_sorted.
      * intros j Hj. apply positions_elem in Hj as [_ Hj].
        rewrite Nat.sub_0_r in Hj. split; [|assumption].
        eapply lookup_lt_Some; eassumption.
      * intros j k. rewrite lookup_empty. discriminate.
      * assumption.
      * assumption.
      * left. apply positions_elem. split; [lia|]. rewrite Nat.sub_0_r. assumption.
      * apply IH; auto; [lia|]. simpl. rewrite H4. reflexivity.
    + simpl flm_inner. apply IH; auto; [lia| | |].
      * intros j k. rewrite lookup_empty. discriminate.
      * simpl. rewrite lookup_empty. simpl. symmetry. eapply drun_nokey; eassumption.
      * intros m Hm. destruct (decide (m = i)) as [->|]; [|apply HB2; lia].
        erewrite drun_nokey by eassumption. lia.
Qed.

Lemma extend_back_self junk : forall bi bs,
  junk = false -> bi <= length a ->
  extend_back a a junk 0 0 bi bi bs = Ok (0, 0, bi + bs).
Proof.
  intros bi bs ->. revert bs.
  induction bi as [|bi IH]; intros bs Hle; simpl; [reflexivity|].
  unfold getitem. destruct (a !! bi) as [x|] eqn:E;
    [|apply lookup_ge_None in E; lia].
  simpl. rewrite bool_decide_eq_true_2 by reflexivity.
  rewrite IH by lia. do 2 f_equal. lia.
Qed.

Lemma extend_fwd_self : forall d bs,
  bs + d = length a ->
  extend_fwd a a false (length a) d 0 0 bs = Ok (0, 0, length a).
Proof.
  induction d as [|d IH]; intros bs Hd; simpl.
  - do 2 f_equal. lia.
  - destruct (Nat.ltb_spec bs (length a)) as [_|Hge]; [|lia].
    unfold getitem. destruct (a !! bs) as [x|] eqn:E;
      [|apply lookup_ge_None in E; lia].
    simpl. rewrite bool_decide_eq_true_2 by reflexivity. apply IH. lia.
Qed.

(** The longest match of the whole of [a] with itself is the whole of it. *)
Lemma find_longest_match_self :
  find_longest_match a a b2j 0 (length a) 0 (length a) = Ok (0, 0, length a).
Proof.
  unfold find_longest_match. rewrite Nat.sub_0_r.
  destruct (flm_outer_inv (length a) 0 ∅ 0 0) as (bi & bs & -> & Hb).
  - reflexivity.
  - intros j k. rewrite lookup_empty. discriminate.
  - reflexivity.
  - lia.
  - intros m Hm. lia.
  - simpl bind. rewrite extend_back_self by (reflexivity || lia). simpl bind.
    rewrite extend_fwd_self by lia. simpl bind.
    simpl extend_back. simpl bind. rewrite Nat.sub_diag. reflexivity.
Qed.

End SelfMatch.

(** *** The matching blocks are always computed

    Whatever the two sequences, [find_longest_match] returns a block inside
    the ranges it is given, and the loop of [get_matching_blocks] ends
    within its fuel: the model never runs out of it. *)

Section Totality.

Variables a b : list pyline.
Variable b2j : gmap pyline (list nat).

Lemma j2lenget_range (j2len : gmap nat nat) (blo B j : nat) :
  (forall j k, j2len !! j = Some k -> blo <= j /\ k <= j + 1 - blo /\ k <= B) ->
  blo <= j -> j2lenget j2len j <= j - blo /\ j2lenget j2len j <= B.
Proof.
  intros H Hj. destruct j as [|j]; simpl; [lia|].
  destruct (j2len !! j) as [k|] eqn:E; simpl; [|lia].
  destruct (H j k E) as (H1 & H2 & H3). lia.
Qed.

Lemma flm_inner_bounds (i alo ahi blo bhi : nat) (j2len : gmap nat nat) :
  alo <= i < ahi ->
  (forall j k, j2len !! j = Some k -> blo <= j /\ k <= j + 1 - blo /\ k <= i - alo) ->
  forall js (new : gmap nat nat) bi bj bs,
    (forall j k, new !! j = Some k -> blo <= j /\ k <= j + 1 - blo /\ k <= S i - alo) ->
    alo <= bi -> bi + bs <= ahi -> blo <= bj -> bj + bs <= bhi ->
    exists new' bi' bj' bs',
      flm_inner js i blo bhi j2len new (bi, bj, bs) = (new', (bi', bj', bs')) /\
      (forall j k, new' !! j = Some k -> blo <= j /\ k <= j + 1 - blo /\ k <= S i - alo) /\
      alo <= bi' /\ bi' + bs' <= ahi /\ blo <= bj' /\ bj' + bs' <= bhi.
Proof.
  intros Hi HJ. induction js as [|j js IH]; intros new bi bj bs Hnew H1 H2 H3 H4.
  - exists new, bi, bj, bs. simpl. auto 10.
  - simpl. destruct (Nat.ltb_spec j blo) as [_|Hjlo]; [apply IH; auto|].
    destruct (Nat.leb_spec bhi j) as [_|Hjhi]; [exists new, bi, bj, bs; auto 10|].
    destruct (j2lenget_range j2len blo (i - alo) j HJ Hjlo) as [Hk1 Hk2].
    set (k := j2lenget j2len j + 1) in *.
    assert (Hnew' : forall j0 k0, <[j:=k]> new !! j0 = Some k0 ->
                      blo <= j0 /\ k0 <= j0 + 1 - blo /\ k0 <= S i - alo).
    { intros j0 k0. destruct (decide (j = j0)) as [<-|Hne].
      - rewrite lookup_insert_eq. intros [= <-]. unfold k. lia.
      - rewrite lookup_insert_ne by assumption. apply Hnew. }
    destruct (Nat.ltb_spec bs k) as [_|_]; apply IH; auto; unfold k; lia.
Qed.

Lemma flm_outer_bounds (alo ahi blo bhi : nat) :
  ahi <= length a ->
  forall d i (j2len : gmap nat nat) bi bj bs,
    i + d = ahi -> alo <= i ->
    (forall j k, j2len !! j = Some k -> blo <= j /\ k <= j + 1 - blo /\ k <= i - alo) ->
    alo <= bi -> bi + bs <= ahi -> blo <= bj -> bj + bs <= bhi ->
    exists bi' bj' bs',
      flm_outer a b2j (seq i d) blo bhi j2len (bi, bj, bs) = Ok (bi', bj', bs') /\
      alo <= bi' /\ bi' + bs' <= ahi /\ blo <= bj' /\ bj' + bs' <= bhi.
Proof.
  intros Hahi. induction d as [|d IH]; intros i j2len bi bj bs Hid Hi HJ H1 H2 H3 H4.
  - exists bi, bj, bs. simpl. auto.
  - simpl seq. simpl flm_outer. unfold getitem.
    destruct (a !! i) as [x|] eqn:E; [|apply lookup_ge_None in E; lia].
    simpl bind.
    destruct (flm_inner_bounds i alo ahi blo bhi j2len ltac:(lia) HJ
                (default [] (b2j !! x)) ∅ bi bj bs)
      as (new' & bi' & bj' & bs' & -> & Hnew & K1 & K2 & K3 & K4); auto.
    { intros j k. rewrite lookup_empty. discriminate. }
    apply IH; auto; lia.
Qed.

Lemma extend_back_bounds junk alo blo : forall bi bj bs,
  bi <= length a -> bj <= length b -> alo <= bi -> blo <= bj ->
  exists bi' bj' bs',
    extend_back a b junk alo blo bi bj bs = Ok (bi', bj', bs') /\
    alo <= bi' /\ blo <= bj' /\ bi' + bs' = bi + bs /\ bj' + bs' = bj + bs.
Proof.
  induction bi as [|bi IH]; intros bj bs Ha Hb H1 H2.
  - exists 0, bj, bs. simpl. auto.
  - destruct bj as [|bj]; [exists (S bi), 0, bs; simpl; auto 10|].
    simpl extend_back.
    destruct ((alo <? S bi) && (blo <? S bj)) eqn:Hc;
      [|exists (S bi), (S bj), bs; auto 10].
    apply andb_true_iff in Hc as [Hc1 Hc2].
    apply Nat.ltb_lt in Hc1. apply Nat.ltb_lt in Hc2.
    unfold getitem.
    destruct (b !! bj) as [y|] eqn:Eb; [|apply lookup_ge_None in Eb; lia].
    destruct (a !! bi) as [x|] eqn:Ea; [|apply lookup_ge_None in Ea; lia].
    simpl bind. unfold isbjunk.
    destruct junk; simpl; [exists (S bi), (S bj), bs; auto 10|].
    case_bool_decide; [|exists (S bi), (S bj), bs; auto 10].
    destruct (IH bj (bs + 1)) as (bi' & bj' & bs' & -> & K1 & K2 & K3 & K4); try lia.
    exists bi', bj', bs'. repeat split; lia.
Qed.

Lemma extend_fwd_bounds junk bhi : bhi <= length b ->
  forall d bi bj bs,
    bi + bs + d <= length a -> bj + bs <= bhi ->
    exists bs',
      extend_fwd a b junk bhi d bi bj bs = Ok (bi, bj, bs') /\
      bs <= bs' /\ bi + bs' <= bi + bs + d /\ bj + bs' <= bhi.
Proof.
  intros Hbhi. induction d as [|d IH]; intros bi bj bs Ha Hb.
  - exists bs. simpl. repeat split; lia.
  - simpl extend_fwd.
    destruct (Nat.ltb_spec (bj + bs) bhi) as [Hlt|_];
      [|exists bs; repeat split; lia].
    unfold getitem.
    destruct (b !! (bj + bs)) as [y|] eqn:Eb; [|apply lookup_ge_None in Eb; lia].
    destruct (a !! (bi + bs)) as [x|] eqn:Ea; [|apply lookup_ge_None in Ea; lia].
    simpl bind. unfold isbjunk.
    destruct junk; simpl; [exists bs; repeat split; lia|].
    case_bool_decide; [|exists bs; repeat split; lia].
    destruct (IH bi bj (bs + 1)) as (bs' & -> & K1 & K2 & K3); try lia.
    exists bs'. repeat split; lia.
Qed.

(** [find_longest_match] returns, and its block lies in the two ranges. *)
Lemma find_longest_match_bounds alo ahi blo bhi :
  alo <= ahi -> ahi <= length a -> blo <= bhi -> bhi <= length b ->
  exists i j k,
    find_longest_match a b b2j alo ahi blo bhi = Ok (i, j, k) /\
    alo <= i /\ i + k <= ahi /\ blo <= j /\ j + k <= bhi.
Proof.
  intros Ha1 Ha2 Hb1 Hb2. unfold find_longest_match.
  destruct (flm_outer_bounds alo ahi blo bhi Ha2 (ahi - alo) alo ∅ alo blo 0)
    as (i0 & j0 & k0 & -> & A1 & A2 & A3 & A4); try lia.
  { intros j k. rewrite lookup_empty. discriminate. }
  cbn [bind].
  destruct (extend_back_bounds false alo blo i0 j0 k0)
    as (i1 & j1 & k1 & -> & B1 & B2 & B3 & B4); try lia.
  cbn [bind].
  destruct (extend_fwd_bounds false bhi Hb2 (ahi - (i1 + k1)) i1 j1 k1)
    as (k2 & -> & C1 & C2 & C3); try lia.
  cbn [bind].
  destruct (extend_back_bounds true alo blo i1 j1 k2)
    as (i3 & j3 & k3 & -> & D1 & D2 & D3 & D4); try lia.
  cbn [bind].
  destruct (extend_fwd_bounds true bhi Hb2 (ahi - (i3 + k3)) i3 j3 k3)
    as (k4 & -> & E1 & E2 & E3); try lia.
  exists i3, j3, k4. repeat split; lia.
Qed.

End Totality.

(** The loop of [get_matching_blocks] ends within its fuel. *)
Lemma gmb_loop_total (a b : list pyline) (b2j : gmap pyline (list nat)) :
  forall fuel queue blocks,
    Forall (range_ok a b) queue -> queue_weight queue <= fuel ->
    exists blocks', gmb_loop fuel a b b2j queue blocks = Ok blocks'.
Proof.
  induction fuel as [|fuel IH]; intros queue blocks Hq Hw.
  - destruct queue as [|[[[alo ahi] blo] bhi] queue]; [eexists; reflexivity|].
    simpl in Hw. lia.
  - destruct queue as [|[[[alo ahi] blo] bhi] queue]; [eexists; reflexivity|].
    apply Forall_cons in Hq as [(R1 & R2 & R3 & R4) Hq]. simpl in R1, R2, R3, R4.
    simpl in Hw. cbn [gmb_loop].
    destruct (find_longest_match_bounds a b b2j alo ahi blo bhi R1 R2 R3 R4)
      as (i & j & k & -> & B1 & B2 & B3 & B4).
    cbn [bind].
    destruct (Nat.eqb_spec k 0) as [->|Hk]; [apply IH; [assumption | lia]|].
    destruct (Nat.ltb_spec alo i) as [Hi|Hi];
      destruct (Nat.ltb_spec blo j) as [Hj|Hj];
      destruct (Nat.ltb_spec (i + k) ahi) as [Hik|Hik];
      destruct (Nat.ltb_spec (j + k) bhi) as [Hjk|Hjk];
      cbn [andb]; apply IH;
      repeat (apply Forall_cons; split; [unfold range_ok; simpl; lia|]);
      try assumption; simpl; lia.
Qed.

(** [get_opcodes] returns for every two sequences. *)
Lemma get_opcodes_total (a b : list pyline) :
  exists ops, get_opcodes a b = Ok ops.
Proof.
  unfold get_opcodes, get_matching_blocks.
  destruct (gmb_loop_total a b (chain_b b) (2 * length a + 1)
              [(0, length a, 0, length b)] []) as [blocks ->].
  - apply Forall_cons. split; [unfold range_ok; simpl; lia | constructor].
  - simpl. lia.
  - cbn [bind].
    destruct (collapse _ _ _) as [[[i1 j1] k1] non_adjacent].
    cbn [bind]. eexists. reflexivity.
Qed.

Lemma dump_loop_raise tg x idx e :
  dump_loop tg x idx = Raise e -> e = IndexError.
Proof.
  revert e. induction idx as [|i idx IH]; intros e; simpl; [discriminate|].
  unfold getitem. destruct (x !! i); simpl; [|intros [= <-]; reflexivity].
  destruct (dump_loop tg x idx) as [rest|e'] eqn:E; simpl; [discriminate|].
  intros [= <-]. apply IH. reflexivity.
Qed.

(** The aligner runs out of fuel only if [_fancy_replace] is made to. *)
Lemma compare_fuel fancy (a b : list pyline) :
  (forall x alo ahi y blo bhi, fancy x alo ahi y blo bhi <> Raise OutOfFuel) ->
  compare fancy a b <> Raise OutOfFuel.
Proof.
  intros Hf. unfold compare. destruct (get_opcodes_total a b) as [ops ->].
  cbn [bind]. induction ops as [|[[[[tg alo] ahi] blo] bhi] ops IH]; simpl;
    [discriminate|].
  assert (Hg : forall g : result (list string),
            g <> Raise OutOfFuel ->
            (do g0 <- g; do rest <- compare_loop fancy a b ops; Ok (g0 ++ rest))
            <> Raise OutOfFuel).
  { intros [g0|e] Hne; simpl; [|congruence].
    destruct (compare_loop fancy a b ops); simpl; [discriminate | congruence]. }
  apply Hg. destruct tg; [apply Hf| | |];
    intros Hd; apply dump_loop_raise in Hd; discriminate.
Qed.

(** *** The alignment of a sequence with itself *)

Lemma get_matching_blocks_self (a : list pyline) :
  get_matching_blocks a a
  = Ok (match a with [] => [] | _ => [(0, 0, length a)] end ++ [(length a, length a, 0)]).
Proof.
  unfold get_matching_blocks.
  replace (2 * length a + 1) with (S (2 * length a)) by lia.
  cbn [gmb_loop].
  rewrite (find_longest_match_self a (chain_b a) (chain_b_lookup a)).
  cbn [bind]. destruct a as [|x a]; [reflexivity|].
  set (n := length (x :: a)).
  assert (Hn : n = S (length a)) by reflexivity.
  replace (n =? 0) with false by (rewrite Hn; reflexivity).
  rewrite Nat.ltb_irrefl. cbn [andb].
  replace (0 + n <? n) with false by (symmetry; apply Nat.ltb_irrefl).
  cbn [andb]. destruct (2 * n); cbn [gmb_loop bind app];
    (replace (n =? 0) with false by (rewrite Hn; reflexivity)); reflexivity.
Qed.

Lemma dump_loop_seq tg (pre x : list pyline) :
  dump_loop tg (pre ++ x) (seq (length pre) (length x))
  = Ok (map (fun l => tg +:+ " " +:+ format_s l) x).
Proof.
  revert pre. induction x as [|l x IH]; intros pre; simpl; [reflexivity|].
  unfold getitem. rewrite lookup_app_r, Nat.sub_diag by lia. simpl.
  replace (pre ++ l :: x) with ((pre ++ [l]) ++ x) by (rewrite <- app_assoc; reflexivity).
  replace (S (length pre)) with (length (pre ++ [l])) by (rewrite length_app; simpl; lia).
  rewrite IH. reflexivity.
Qed.

(** Two equal sequences are aligned line by line, every line common,
    whatever [_fancy_replace] does. *)
Lemma compare_self fancy (a : list pyline) :
  compare fancy a a = Ok (map (fun l => "  " +:+ format_s l) a).
Proof.
  unfold compare, get_opcodes. rewrite get_matching_blocks_self.
  destruct a as [|x a]; [reflexivity|].
  set (n := length (x :: a)).
  assert (Hn : n = S (length a)) by reflexivity.
  cbn [bind app opcodes_loop Nat.add]. rewrite !Nat.ltb_irrefl.
  replace (n =? 0) with false by (rewrite Hn; reflexivity).
  cbn [andb app Nat.eqb].
  cbn [compare_loop bind]. unfold _dump. rewrite Nat.sub_0_r.
  subst n.
  rewrite (dump_loop_seq " " [] (x :: a)
           : dump_loop " " (x :: a) (seq 0 (length (x :: a))) = _).
  cbn [bind]. rewrite app_nil_r. reflexivity.
Qed.

End DifflibFacts.

(** * The classifier after the aligner *)

Section NoDifference.
Import Classifier.

Lemma analyze_loop_common_lines (L : list pyline) : forall ds n,
  analyze_loop (map (fun l => "  " +:+ format_s l) L) (ds, n) = Ok (ds, n + length L).
Proof.
  induction L as [|l L IH]; intros ds n; simpl map.
  - simpl. do 2 f_equal. lia.
  - cbn [analyze_loop].
    change ("  " +:+ format_s l) with (render (Common (format_s l))).
    rewrite step_common. cbn [bind]. rewrite IH. do 2 f_equal. simpl. lia.
Qed.

(** C4.  For every sequence of lines [L] (text lines, or bytes lines),
    aligning [L] with itself and classifying the alignment gives the empty
    list of differences, whatever [_fancy_replace] is. *)
Theorem classify_align_self_is_empty
    (fancy : list pyline -> nat -> nat -> list pyline -> nat -> nat -> result (list string))
    (L : list pyline) :
  (do diff <- Difflib.compare fancy L L; _analyze_differences diff) = Ok [].
Proof.
  rewrite compare_self. cbn [bind]. unfold _analyze_differences.
  rewrite analyze_loop_common_lines. reflexivity.
Qed.

End NoDifference.

(** * Properties of the two [run] loops *)

Section SummaryFacts.

Variable fancy :
  list pyline -> nat -> nat -> list pyline -> nat -> nat -> result (list string).
Variable root : list (string * node).

Lemma txt_sum_differences_snoc ds d :
  CompareTxt.sum_differences (ds ++ [d])
  = (CompareTxt.sum_differences ds
     + if CompareTxt.counted_different d then CompareTxt.differences d else 0)%Z.
Proof.
  unfold CompareTxt.sum_differences. induction ds as [|x ds IH]; simpl.
  - destruct (CompareTxt.counted_different d); lia.
  - rewrite IH. destruct (CompareTxt.counted_different x); lia.
Qed.

(** What one iteration of the loop of [Compare_txt.run] keeps. *)
Lemma txt_run_step_inv res p res' logs :
  CompareTxt.run_step fancy root res p = (res', logs) ->
  CompareTxt.total_folders res' = CompareTxt.total_folders res /\
  length (CompareTxt.details res') = S (length (CompareTxt.details res)) /\
  (CompareTxt.identical_count res' + CompareTxt.different_count res'
     + CompareTxt.error_count res'
   = CompareTxt.identical_count res + CompareTxt.different_count res
     + CompareTxt.error_count res + 1)%Z /\
  (CompareTxt.total_differences res' - CompareTxt.sum_differences (CompareTxt.details res')
   = CompareTxt.total_differences res
     - CompareTxt.sum_differences (CompareTxt.details res))%Z.
Proof.
  unfold CompareTxt.run_step.
  destruct (CompareTxt._compare_file_pair fancy root p) as [[b z] l].
  destruct b; [|destruct (0 <? z)%Z eqn:Hz]; intros [= <- <-]; simpl;
    rewrite length_app, txt_sum_differences_snoc; unfold CompareTxt.counted_different;
    simpl; rewrite ?Hz; simpl; repeat split; lia.
Qed.

Lemma txt_run_loop_inv pairs : forall res logs res' logs',
  CompareTxt.run_loop fancy root pairs res logs = (res', logs') ->
  CompareTxt.total_folders res' = CompareTxt.total_folders res /\
  length (CompareTxt.details res') = length (CompareTxt.details res) + length pairs /\
  (CompareTxt.identical_count res' + CompareTxt.different_count res'
     + CompareTxt.error_count res'
   = CompareTxt.identical_count res + CompareTxt.different_count res
     + CompareTxt.error_count res + Z.of_nat (length pairs))%Z /\
  (CompareTxt.total_differences res' - CompareTxt.sum_differences (CompareTxt.details res')
   = CompareTxt.total_differences res
     - CompareTxt.sum_differences (CompareTxt.details res))%Z.
Proof.
  induction pairs as [|p pairs IH]; intros res logs res' logs'; simpl.
  - intros [= <- <-]. repeat split; lia.
  - destruct (CompareTxt.run_step fancy root res p) as [res1 logs1] eqn:Hstep.
    intros Hloop. apply IH in Hloop as (H1 & H2 & H3 & H4).
    apply txt_run_step_inv in Hstep as (K1 & K2 & K3 & K4).
    repeat split; lia.
Qed.

Lemma nc_sum_differences_snoc frs fr :
  CompareNc.sum_differences (frs ++ [fr])
  = (CompareNc.sum_differences frs + CompareNc.sum_comparisons (CompareNc.comparisons fr))%Z.
Proof.
  unfold CompareNc.sum_differences. induction frs as [|x frs IH]; simpl; [lia|].
  rewrite IH. lia.
Qed.

(** What counting the entries of one folder adds to the counters. *)
Lemma nc_count_comparisons_inv folder comps : forall res,
  let res' := fold_left (CompareNc.count_comparison folder) comps res in
  CompareNc.total_folders res' = CompareNc.total_folders res /\
  CompareNc.details res' = CompareNc.details res /\
  (CompareNc.compared_pairs res'
     - (CompareNc.identical_pairs res' + CompareNc.different_pairs res'
        + CompareNc.error_pairs res')
   = CompareNc.compared_pairs res
     - (CompareNc.identical_pairs res + CompareNc.different_pairs res
        + CompareNc.error_pairs res))%Z /\
  (CompareNc.total_differences res'
   = CompareNc.total_differences res + CompareNc.sum_comparisons comps)%Z.
Proof.
  induction comps as [|c comps IH]; intros res; simpl.
  - repeat split; lia.
  - destruct (IH (CompareNc.count_comparison folder res c)) as (H1 & H2 & H3 & H4).
    simpl in *. destruct c; simpl in *; repeat split; try congruence; lia.
Qed.

Variable lower : string -> string.
Variable file_exts : list string.

Lemma nc_run_loop_inv groups : forall res logs res' logs',
  CompareNc.run_loop fancy root file_exts groups res logs = (res', logs') ->
  CompareNc.total_folders res' = CompareNc.total_folders res /\
  (CompareNc.compared_pairs res'
     - (CompareNc.identical_pairs res' + CompareNc.different_pairs res'
        + CompareNc.error_pairs res')
   = CompareNc.compared_pairs res
     - (CompareNc.identical_pairs res + CompareNc.different_pairs res
        + CompareNc.error_pairs res))%Z /\
  (CompareNc.total_differences res' - CompareNc.sum_differences (CompareNc.details res')
   = CompareNc.total_differences res
     - CompareNc.sum_differences (CompareNc.details res))%Z.
Proof.
  induction groups as [|g groups IH]; intros res logs res' logs'; simpl.
  - intros [= <- <-]. repeat split; lia.
  - unfold CompareNc.run_step.
    destruct (CompareNc._compare_in_folder fancy root file_exts g.1 g.2)
      as [result l] eqn:Hf.
    intros Hloop. apply IH in Hloop as (H1 & H2 & H3).
    match type of H1 with
    | context [fold_left ?f ?cs ?r] =>
        destruct (nc_count_comparisons_inv g.1 cs r) as (K1 & K2 & K3 & K4)
    end.
    cbv zeta in K1, K2, K3, K4. simpl in K1, K2, K3, K4.
    rewrite K2, nc_sum_differences_snoc in H3.
    repeat split; lia.
Qed.

(** C10.  In a summary returned by [run], the outcome counters add up to
    the number of pairs processed ([total_folders] in [Compare_txt.py],
    [compared_pairs] in [Compare_nc_txt.py]), and [total_differences] is
    the sum of the difference counts of the pairs counted as different. *)
Theorem summary_counters_partition f1 f2 :
  (forall res logs,
     CompareTxt.run fancy root f1 f2 = (Some res, logs) ->
     (CompareTxt.identical_count res + CompareTxt.different_count res
        + CompareTxt.error_count res = CompareTxt.total_folders res)%Z /\
     CompareTxt.total_differences res
     = CompareTxt.sum_differences (CompareTxt.details res)) /\
  (forall res logs,
     CompareNc.run fancy lower root file_exts = (Some res, logs) ->
     (CompareNc.identical_pairs res + CompareNc.different_pairs res
        + CompareNc.error_pairs res = CompareNc.compared_pairs res)%Z /\
     CompareNc.total_differences res
     = CompareNc.sum_differences (CompareNc.details res)).
Proof.
  split; intros res logs.
  - unfold CompareTxt.run.
    destruct (CompareTxt._find_file_pairs root f1 f2) as [|p pairs] eqn:Hp;
      [discriminate|].
    match goal with
    | |- context [CompareTxt.run_loop _ _ ?ps ?r ?l] =>
        destruct (CompareTxt.run_loop fancy root ps r l) as [res' logs'] eqn:Hloop
    end.
    intros [= <- <-]. apply txt_run_loop_inv in Hloop as (H1 & H2 & H3 & H4).
    simpl in *. split; lia.
  - unfold CompareNc.run.
    destruct (CompareNc._find_files lower root file_exts) as [|g groups] eqn:Hg;
      [discriminate|].
    match goal with
    | |- context [CompareNc.run_loop _ _ _ ?gs ?r ?l] =>
        destruct (CompareNc.run_loop fancy root file_exts gs r l)
          as [res' logs'] eqn:Hloop
    end.
    intros [= <- <-]. apply nc_run_loop_inv in Hloop as (H1 & H2 & H3).
    simpl in *. split; lia.
Qed.

End SummaryFacts.

(** * Errors at the pair boundary *)

Section PairErrors.

Variable fancy :
  list pyline -> nat -> nat -> list pyline -> nat -> nat -> result (list string).
Variable root : list (string * node).

Lemma txt_run_loop_app pre suf : forall res logs,
  CompareTxt.run_loop fancy root (pre ++ suf) res logs
  = (let '(res1, logs1) := CompareTxt.run_loop fancy root pre res logs in
     CompareTxt.run_loop fancy root suf res1 logs1).
Proof.
  induction pre as [|p pre IH]; intros res logs; simpl; [reflexivity|].
  destruct (CompareTxt.run_step fancy root res p) as [res1 logs1]. apply IH.
Qed.

Variable file_exts : list string.

Lemma nc_compare_exts_app info pre suf :
  CompareNc.compare_exts fancy root info (pre ++ suf)
  = (let '(c1, l1) := CompareNc.compare_exts fancy root info pre in
     let '(c2, l2) := CompareNc.compare_exts fancy root info suf in
     (c1 ++ c2, l1 ++ l2)).
Proof.
  induction pre as [|ext pre IH]; simpl.
  - destruct (CompareNc.compare_exts fancy root info suf). reflexivity.
  - rewrite IH.
    destruct (CompareNc.compare_ext fancy root info ext) as [c0 l0].
    destruct (CompareNc.compare_exts fancy root info pre) as [c1 l1].
    destruct (CompareNc.compare_exts fancy root info suf) as [c2 l2].
    rewrite <- !app_assoc. reflexivity.
Qed.

(** C7, as the code has it.  An exception raised while the files of a pair
    are read, aligned or classified is caught at the pair.  In
    [Compare_txt.py] the pair returns [(False, -1)], an error is logged,
    and the loop of [run] goes on with the pairs that follow, the pair
    counted in [error_count] and recorded with the count [-1].  In
    [Compare_nc_txt.py] the pair is recorded as an entry with the status
    ['error'], which has no difference count, an error is logged, the
    extensions that follow are still compared, and [run] counts the entry
    in [compared_pairs] and [error_pairs] only. *)
Theorem pair_exception_is_recorded_and_run_goes_on :
  (forall pre p suf res logs e,
     CompareTxt.pair_differences fancy root p = Raise e ->
     CompareTxt._compare_file_pair fancy root p
     = ((false, (-1)%Z), [LogPairError (CompareTxt.folder p) e]) /\
     exists res1 logs1,
       CompareTxt.run_loop fancy root pre res logs = (res1, logs1) /\
       CompareTxt.run_loop fancy root (pre ++ p :: suf) res logs
       = CompareTxt.run_loop fancy root suf
           (CompareTxt.mkResults
              (CompareTxt.total_folders res1) (CompareTxt.identical_count res1)
              (CompareTxt.different_count res1) (CompareTxt.error_count res1 + 1)
              (CompareTxt.total_differences res1) (CompareTxt.different_folders res1)
              (CompareTxt.details res1
               ++ [CompareTxt.mkDetail (CompareTxt.folder p) false (-1)
                     (CompareTxt.file1 p) (CompareTxt.file2 p)]))
           (logs1 ++ [LogPairError (CompareTxt.folder p) e])) /\
  (forall info pre ext suf name1 name2 others e folder res,
     CompareNc.files_by_ext info !! ext = Some (name1 :: name2 :: others) ->
     (do r <- CompareNc._compare_files fancy root
                (CompareNc.folder_path info ++ [name1])
                (CompareNc.folder_path info ++ [name2]);
      Classifier._analyze_differences r.1.1) = Raise e ->
     CompareNc.compare_ext fancy root info ext
     = ([CompareNc.Error e ext], [LogCompareError e]) /\
     CompareNc.differences (CompareNc.Error e ext) = None /\
     (exists c1 l1 c2 l2,
        CompareNc.compare_exts fancy root info pre = (c1, l1) /\
        CompareNc.compare_exts fancy root info suf = (c2, l2) /\
        CompareNc.compare_exts fancy root info (pre ++ ext :: suf)
        = (c1 ++ CompareNc.Error e ext :: c2, l1 ++ LogCompareError e :: l2)) /\
     CompareNc.count_comparison folder res (CompareNc.Error e ext)
     = CompareNc.mkResults
         (CompareNc.total_folders res) (CompareNc.compared_pairs res + 1)
         (CompareNc.identical_pairs res) (CompareNc.different_pairs res)
         (CompareNc.error_pairs res + 1) (CompareNc.total_differences res)
         (CompareNc.different_files res) (CompareNc.details res)).
Proof.
  split.
  - intros pre p suf res logs e He.
    assert (Hp : CompareTxt._compare_file_pair fancy root p
                 = ((false, (-1)%Z), [LogPairError (CompareTxt.folder p) e])).
    { unfold CompareTxt._compare_file_pair. rewrite He. reflexivity. }
    split; [exact Hp|].
    destruct (CompareTxt.run_loop fancy root pre res logs) as [res1 logs1] eqn:Hpre.
    exists res1, logs1. split; [reflexivity|].
    rewrite txt_run_loop_app, Hpre. cbn [CompareTxt.run_loop].
    unfold CompareTxt.run_step. rewrite Hp. reflexivity.
  - intros info pre ext suf name1 name2 others e folder res Hfiles He.
    assert (Hext : CompareNc.compare_ext fancy root info ext
                   = ([CompareNc.Error e ext], [LogCompareError e])).
    { unfold CompareNc.compare_ext. rewrite Hfiles. cbn [default id]. rewrite He.
      reflexivity. }
    split; [exact Hext|]. split; [reflexivity|]. split; [|reflexivity].
    destruct (CompareNc.compare_exts fancy root info pre) as [c1 l1] eqn:Hpre.
    destruct (CompareNc.compare_exts fancy root info suf) as [c2 l2] eqn:Hsuf.
    exists c1, l1, c2, l2. split; [reflexivity|]. split; [reflexivity|].
    rewrite nc_compare_exts_app, Hpre. cbn [CompareNc.compare_exts].
    rewrite Hext, Hsuf. reflexivity.
Qed.

End PairErrors.

(** A folder whose first file is a directory: reading raises. *)
Lemma pair_exception_is_recorded_and_run_goes_on_witness :
  let root := [("f", Dir [("file1.txt", Dir []); ("file2.txt", File (nl "a"))]);
               ("g", Dir [("file1.txt", File (nl "a")); ("file2.txt", File (nl "a"))])] in
  let p := CompareTxt.mkPair "f" ["f"] ["f"; "file1.txt"] ["f"; "file2.txt"] in
  let q := CompareTxt.mkPair "g" ["g"] ["g"; "file1.txt"] ["g"; "file2.txt"] in
  let info := CompareNc.mkInfo ["f"] {[ ".txt" := ["file1.txt"; "file2.txt"] ]} in
  (CompareTxt._compare_file_pair fancy_refuses root p
   = ((false, (-1)%Z), [LogPairError "f" OSError]) /\
   exists res1 logs1,
     CompareTxt.run_loop fancy_refuses root [] (CompareTxt.mkResults 2 0 0 0 0 [] []) []
     = (res1, logs1) /\
     CompareTxt.run_loop fancy_refuses root ([] ++ p :: [q])
       (CompareTxt.mkResults 2 0 0 0 0 [] []) []
     = CompareTxt.run_loop fancy_refuses root [q]
         (CompareTxt.mkResults
            (CompareTxt.total_folders res1) (CompareTxt.identical_count res1)
            (CompareTxt.different_count res1) (CompareTxt.error_count res1 + 1)
            (CompareTxt.total_differences res1) (CompareTxt.different_folders res1)
            (CompareTxt.details res1
             ++ [CompareTxt.mkDetail "f" false (-1) ["f"; "file1.txt"] ["f"; "file2.txt"]]))
         (logs1 ++ [LogPairError "f" OSError])) /\
  CompareNc.compare_ext fancy_refuses root info ".txt"
  = ([CompareNc.Error OSError ".txt"], [LogCompareError OSError]).
Proof.
  intros root p q info.
  destruct (pair_exception_is_recorded_and_run_goes_on fancy_refuses root) as [Htxt Hnc].
  split.
  - apply (Htxt [] p [q] (CompareTxt.mkResults 2 0 0 0 0 [] []) [] OSError).
    reflexivity.
  - apply (Hnc info [] ".txt" [] "file1.txt" "file2.txt" [] OSError "f"
             (CompareNc.mkResults 1 0 0 0 0 0 [] [])).
    + vm_compute. reflexivity.
    + vm_compute. reflexivity.
Defined.

(** The claim as stated fails in [Compare_nc_txt.py]: the entry recorded
    for a pair whose reading raises has no difference count, so not [-1]. *)
Lemma nc_error_entry_has_no_difference_count :
  let root := [("f", Dir [("a.txt", Dir []); ("b.txt", File (nl "x"))])] in
  exists res,
    CompareNc.run fancy_refuses ascii_lower root [".txt"]
    = (Some res, [LogCompareError OSError]) /\
    CompareNc.details res
    = [CompareNc.mkFolderResult [CompareNc.Error OSError ".txt"] "f"] /\
    CompareNc.error_pairs res = 1%Z /\
    CompareNc.differences (CompareNc.Error OSError ".txt") = None /\
    CompareNc.differences (CompareNc.Error OSError ".txt") <> Some (-1)%Z.
Proof.
  intros root. eexists. split; [vm_compute; reflexivity|].
  repeat split; discriminate.
Qed.

(** * Reading a pair of files *)

Section ReadingFacts.

Variable root : list (string * node).

(** [Compare_nc_txt.py]: when both files decode as UTF-8 they are read as
    text; when either does not, both are read again and decoded as Latin-1. *)
Lemma nc_read_lines_spec file1 file2 d1 d2 :
  open_read root file1 = Ok d1 -> open_read root file2 = Ok d2 ->
  CompareNc.read_lines root file1 file2
  = if utf8_valid d1 && utf8_valid d2
    then Ok (map PStr (split_lines [] (universal_newlines d1)),
             map PStr (split_lines [] (universal_newlines d2)))
    else Ok (map (fun line => PStr (decode_latin1 line)) (readlines_binary d1),
             map (fun line => PStr (decode_latin1 line)) (readlines_binary d2)).
Proof.
  intros H1 H2. unfold CompareNc.read_lines, readlines_text, decode_utf8.
  rewrite H1, H2. cbn [bind].
  destruct (utf8_valid d1); cbn [bind andb]; [|reflexivity].
  destruct (utf8_valid d2); reflexivity.
Qed.

(** [Compare_txt.py]: when either file does not decode as UTF-8, both are
    read again in binary mode and their lines stay bytes. *)
Lemma txt_read_lines_spec file1 file2 d1 d2 :
  open_read root file1 = Ok d1 -> open_read root file2 = Ok d2 ->
  CompareTxt.read_lines root file1 file2
  = if utf8_valid d1 && utf8_valid d2
    then Ok (map PStr (split_lines [] (universal_newlines d1)),
             map PStr (split_lines [] (universal_newlines d2)))
    else Ok (map PBytes (readlines_binary d1), map PBytes (readlines_binary d2)).
Proof.
  intros H1 H2. unfold CompareTxt.read_lines, readlines_text, decode_utf8.
  rewrite H1, H2. cbn [bind].
  destruct (utf8_valid d1); cbn [bind andb]; [|reflexivity].
  destruct (utf8_valid d2); reflexivity.
Qed.

(** X9.  [Compare_txt.py]: two files with the same bytes are reported
    identical, [(True, 0)], and nothing is logged as an error, whichever
    way they are read. *)
Lemma txt_same_content_is_identical fancy p d :
  open_read root (CompareTxt.file1 p) = Ok d ->
  open_read root (CompareTxt.file2 p) = Ok d ->
  CompareTxt._compare_file_pair fancy root p = ((true, 0%Z), []).
Proof.
  intros H1 H2.
  unfold CompareTxt._compare_file_pair, CompareTxt.pair_differences,
    CompareTxt._compare_files.
  rewrite (txt_read_lines_spec _ _ d d H1 H2).
  destruct (utf8_valid d && utf8_valid d); cbn [bind fst snd];
    rewrite compare_self; cbn [bind fst snd];
    unfold Classifier._analyze_differences;
    rewrite analyze_loop_common_lines; reflexivity.
Qed.

End ReadingFacts.

(** C6 at a pair whose first file is not UTF-8.  [Compare_nc_txt.py]
    reads both files again as Latin-1 text.  [Compare_txt.py] reads both
    again as bytes: the lines are not decoded, the aligner formats them with
    [repr], and the difference reported holds [b'\xff\n'] instead of the
    line. *)
Lemma compare_txt_fallback_keeps_bytes :
  let root := [("d", Dir [("file1.txt", File (not_utf8 +:+ nl "a"));
                          ("file2.txt", File (nl "a"))])] in
  let p := CompareTxt.mkPair "d" ["d"] ["d"; "file1.txt"] ["d"; "file2.txt"] in
  CompareNc.read_lines root ["d"; "file1.txt"] ["d"; "file2.txt"]
  = Ok ([PStr (decode_latin1 not_utf8); PStr (nl "a")], [PStr (nl "a")]) /\
  CompareTxt.read_lines root ["d"; "file1.txt"] ["d"; "file2.txt"]
  = Ok ([PBytes not_utf8; PBytes (nl "a")], [PBytes (nl "a")]) /\
  CompareTxt.pair_differences fancy_refuses root p
  = Ok [Classifier.mkDiff Classifier.KRemoved (Some 1) (bytes_repr not_utf8)] /\
  bytes_repr not_utf8 = "b'\xff\n'".
Proof. intros root p. repeat split; vm_compute; reflexivity. Qed.

(** * A run with nothing to compare *)

(** When [flat_map] gives nothing: the searches of both programs are
    such maps over the listing of the parent directory.  The statement for
    every tree, [run_with_nothing_to_compare], comes after the facts on
    [_find_files] that it uses. *)
Section EmptyRun.

Lemma flat_map_nil {A B : Type} (f : A -> list B) (l : list A) :
  (forall x, x ∈ l -> f x = []) -> flat_map f l = [].
Proof.
  induction l as [|x l IH]; intros H; simpl; [reflexivity|].
  rewrite (H x) by left. apply IH. intros y Hy. apply H. right. exact Hy.
Qed.

Lemma flat_map_not_nil {A B : Type} (f : A -> list B) (l : list A) (x : A) :
  x ∈ l -> f x <> [] -> flat_map f l <> [].
Proof.
  intros Hx Hf Hnil. apply Hf.
  destruct (f x) as [|y ys] eqn:E; [reflexivity|].
  assert (Hin : In y (flat_map f l)).
  { apply in_flat_map. exists x. split; [apply list_elem_of_In; exact Hx|].
    rewrite E. left. reflexivity. }
  rewrite Hnil in Hin. destruct Hin.
Qed.

End EmptyRun.

(** The claim as stated fails in [Compare_nc_txt.py]: with a subfolder and
    no pair of files in it, [run] logs no error and returns a summary. *)
Lemma nc_run_without_pairs_returns_summary :
  CompareNc.run fancy_refuses ascii_lower [("f", Dir [("only.txt", File (nl "a"))])]
    [".nc"; ".txt"]
  = (Some (CompareNc.mkResults 1 0 0 0 0 0 [] [CompareNc.mkFolderResult [] "f"]), []).
Proof. vm_compute. reflexivity. Qed.

(** Three folders: two files that differ by a line, two equal files, and
    a folder whose second file is a directory. *)
Lemma summary_counters_partition_witness :
  let root :=
    [("f1", Dir [("file1.txt", File (nl "a" +:+ nl "b")); ("file2.txt", File (nl "a"))]);
     ("f2", Dir [("file1.txt", File (nl "a")); ("file2.txt", File (nl "a"))]);
     ("f3", Dir [("file1.txt", File (nl "a")); ("file2.txt", Dir [])])] in
  (exists res logs,
     CompareTxt.run fancy_refuses root "file1.txt" "file2.txt" = (Some res, logs) /\
     (CompareTxt.identical_count res + CompareTxt.different_count res
        + CompareTxt.error_count res = CompareTxt.total_folders res)%Z /\
     CompareTxt.total_differences res
     = CompareTxt.sum_differences (CompareTxt.details res)) /\
  (exists res logs,
     CompareNc.run fancy_refuses ascii_lower root [".txt"] = (Some res, logs) /\
     (CompareNc.identical_pairs res + CompareNc.different_pairs res
        + CompareNc.error_pairs res = CompareNc.compared_pairs res)%Z /\
     CompareNc.total_differences res
     = CompareNc.sum_differences (CompareNc.details res)).
Proof.
  intros root.
  destruct (summary_counters_partition fancy_refuses root ascii_lower [".txt"]
              "file1.txt" "file2.txt") as [Htxt Hnc].
  split.
  - destruct (CompareTxt.run fancy_refuses root "file1.txt" "file2.txt")
      as [[res|] logs] eqn:Hrun; [|vm_compute in Hrun; discriminate].
    exists res, logs. split; [reflexivity|]. exact (Htxt res logs eq_refl).
  - destruct (CompareNc.run fancy_refuses ascii_lower root [".txt"])
      as [[res|] logs] eqn:Hrun; [|vm_compute in Hrun; discriminate].
    exists res, logs. split; [reflexivity|]. exact (Hnc res logs eq_refl).
Defined.

(** * Further properties of the classifier *)

Section ClassifierMore.
Import Classifier.

Lemma analyze_step_empty st : analyze_step st "" = Raise IndexError.
Proof. destruct st. reflexivity. Qed.

Lemma analyze_step_nonempty st ln :
  ln <> "" -> exists st', analyze_step st ln = Ok st'.
Proof.
  intros Hne. destruct st as [ds n]. unfold analyze_step.
  destruct (startswith ln "  "); [eauto|].
  destruct ln as [|c ln]; [contradiction|]. cbn [String.get].
  destruct (Ascii.eqb c "-"); [eauto|].
  destruct (Ascii.eqb c "+"); [eauto|].
  destruct (Ascii.eqb c "?"); [|eauto].
  destruct (last ds) as [d|]; [|eauto].
  destruct (decide (type d = KRemoved)); eauto.
Qed.

Lemma analyze_loop_empty_line diff : forall st,
  "" ∈ diff -> analyze_loop diff st = Raise IndexError.
Proof.
  induction diff as [|ln diff IH]; intros st Hin; [inversion Hin|].
  cbn [analyze_loop]. destruct (decide (ln = "")) as [->|Hne].
  - rewrite analyze_step_empty. reflexivity.
  - destruct (analyze_step_nonempty st ln Hne) as [st' ->]. cbn [bind].
    apply IH. apply elem_of_cons in Hin as [Heq|Hin]; [congruence | exact Hin].
Qed.

Lemma analyze_loop_no_empty_line diff : forall st,
  "" ∉ diff -> exists st', analyze_loop diff st = Ok st'.
Proof.
  induction diff as [|ln diff IH]; intros st Hnin; [simpl; eauto|].
  cbn [analyze_loop]. apply not_elem_of_cons in Hnin as [Hne Hnin].
  destruct (analyze_step_nonempty st ln) as [st' ->]; [congruence|].
  cbn [bind]. apply IH. exact Hnin.
Qed.

(** X1.  [_analyze_differences] raises, and then an [IndexError], exactly
    when the diff holds an empty string ([line[0]] on it); on every other
    list of strings it returns a list. *)
Theorem analyze_raises_on_empty_line_only (diff : list string) :
  ("" ∈ diff -> _analyze_differences diff = Raise IndexError) /\
  ("" ∉ diff -> exists ds, _analyze_differences diff = Ok ds).
Proof.
  unfold _analyze_differences. split; intros H.
  - rewrite analyze_loop_empty_line by exact H. reflexivity.
  - destruct (analyze_loop_no_empty_line diff ([], 0) H) as [st' ->].
    cbn [bind]. eauto.
Qed.

Lemma analyze_step_ignored st ln :
  ignored_line ln = true -> analyze_step st ln = Ok st.
Proof.
  destruct st as [ds n]. unfold ignored_line, analyze_step.
  destruct (startswith ln "  "); [discriminate|]. cbn [negb andb].
  destruct (String.get 0 ln) as [c|]; [|discriminate].
  destruct (Ascii.eqb c "-"); [discriminate|].
  destruct (Ascii.eqb c "+"); [discriminate|].
  destruct (Ascii.eqb c "?"); [discriminate|]. reflexivity.
Qed.

(** X2.  A line that starts with none of the four prefixes is skipped: it
    emits nothing and does not move the line counter, so the result is the
    one of the diff without such lines. *)
Theorem analyze_skips_unknown_prefixes (diff : list string) :
  _analyze_differences (List.filter (fun ln => negb (ignored_line ln)) diff)
  = _analyze_differences diff /\
  final_line_num (List.filter (fun ln => negb (ignored_line ln)) diff)
  = final_line_num diff.
Proof.
  assert (H : forall st,
            analyze_loop (List.filter (fun ln => negb (ignored_line ln)) diff) st
            = analyze_loop diff st).
  { induction diff as [|ln diff IH]; intros st; [reflexivity|].
    cbn [List.filter analyze_loop].
    destruct (ignored_line ln) eqn:E; cbn [negb].
    - rewrite (analyze_step_ignored st ln E). cbn [bind]. apply IH.
    - cbn [analyze_loop]. destruct (analyze_step st ln); cbn [bind]; [apply IH|reflexivity]. }
  unfold _analyze_differences, final_line_num. rewrite H. split; reflexivity.
Qed.

Lemma well_formed_changed_followed ds :
  well_formed ds ->
  forall i d, ds !! i = Some d -> type d = KChanged ->
  exists d', ds !! S i = Some d' /\ type d' = KChangedContent /\ line d' = None.
Proof.
  induction 1 as [|l c ds Hwf IH|l c ds Hwf IH|l c c' ds Hwf IH]; intros i d Hi Hd.
  - discriminate.
  - destruct i as [|i]; simpl in Hi; [injection Hi as <-; discriminate|].
    exact (IH i d Hi Hd).
  - destruct i as [|i]; simpl in Hi; [injection Hi as <-; discriminate|].
    exact (IH i d Hi Hd).
  - destruct i as [|[|i]]; simpl in Hi.
    + eexists. split; [reflexivity|]. split; reflexivity.
    + injection Hi as <-. discriminate.
    + exact (IH i d Hi Hd).
Qed.

(** X3.  For any diff on which [_analyze_differences] returns, every
    changed entry of the result is immediately followed by a
    changed-content entry, whose line is empty: a changed line counts for
    two entries of the list. *)
Theorem changed_is_followed_by_changed_content
    (diff : list string) (ds : list DiffRecord) (i : nat) (d : DiffRecord) :
  _analyze_differences diff = Ok ds ->
  ds !! i = Some d -> type d = KChanged ->
  exists d', ds !! S i = Some d' /\ type d' = KChangedContent /\ line d' = None.
Proof.
  unfold _analyze_differences. intros H.
  apply bind_Ok in H as ([ds' n] & Hloop & [= <-]). simpl.
  apply well_formed_changed_followed.
  eapply analyze_loop_well_formed; [exact Hloop | constructor].
Qed.

Lemma changed_is_followed_by_changed_content_witness :
  exists d',
    [mkDiff KChanged (Some 1) "abc"; mkDiff KChangedContent None "  ^"] !! 1 = Some d' /\
    type d' = KChangedContent /\ line d' = None.
Proof.
  apply (changed_is_followed_by_changed_content
           ["- abc"; "?   ^"; "  x"]
           [mkDiff KChanged (Some 1) "abc"; mkDiff KChangedContent None "  ^"]
           0 (mkDiff KChanged (Some 1) "abc")); reflexivity.
Defined.

(** X4.  The line number of an entry is one more than the number of
    Common and Added records met before it: for a Removed record too, so
    the lines added before it count, and it is not its position in the
    first file when added lines come before it. *)
Theorem line_number_counts_common_and_added (pre : list AlignmentRecord) (p : string) :
  let n := count_tag is_added pre + count_tag is_common pre in
  exists ds,
    classify_from pre ([], 0) = Ok (ds, n) /\
    classify_from (pre ++ [Removed p]) ([], 0)
    = Ok (ds ++ [mkDiff KRemoved (Some (n + 1)) (rstrip LF p)], n) /\
    classify_from (pre ++ [Added p]) ([], 0)
    = Ok (ds ++ [mkDiff KAdded (Some (n + 1)) (rstrip LF p)], n + 1).
Proof.
  intros n. destruct (classify_from_counter pre [] 0) as [ds Hpre].
  change (0 + count_tag is_added pre + count_tag is_common pre) with n in Hpre.
  exists ds. split; [exact Hpre|].
  split; rewrite classify_from_snoc, Hpre; reflexivity.
Qed.

(** X6.  A Hint promotes the removed entry only when it comes right after
    the Removed record: then the entry becomes a changed entry, with its
    line and content, followed by the changed-content entry; a Hint that
    comes after the Added record of the pair is dropped. *)
Theorem hint_promotes_adjacent_removed_only (pre : list AlignmentRecord) (a0 b0 h : string) :
  exists ds n,
    classify_from pre ([], 0) = Ok (ds, n) /\
    classify_from (pre ++ [Removed a0; Hint h]) ([], 0)
    = Ok (ds ++ [mkDiff KChanged (Some (n + 1)) (rstrip LF a0);
                 mkDiff KChangedContent None (rstrip LF h)], n) /\
    classify_from (pre ++ [Removed a0; Added b0; Hint h]) ([], 0)
    = Ok (ds ++ [mkDiff KRemoved (Some (n + 1)) (rstrip LF a0);
                 mkDiff KAdded (Some (n + 1)) (rstrip LF b0)], n + 1) /\
    classify_from (pre ++ [Removed a0; Hint h; Added b0; Hint h]) ([], 0)
    = Ok (ds ++ [mkDiff KChanged (Some (n + 1)) (rstrip LF a0);
                 mkDiff KChangedContent None (rstrip LF h);
                 mkDiff KAdded (Some (n + 1)) (rstrip LF b0)], n + 1).
Proof.
  destruct (classify_from_total pre ([], 0)) as [[ds n] Hpre].
  exists ds, n. split; [exact Hpre|].
  assert (Hrem : analyze_step (ds, n) (render (Removed a0))
                 = Ok (ds ++ [mkDiff KRemoved (Some (n + 1)) (rstrip LF a0)], n))
    by apply step_removed.
  assert (Hprom : forall x,
            analyze_step (ds ++ [mkDiff KRemoved (Some (n + 1)) (rstrip LF a0)], x)
              (render (Hint h))
            = Ok (ds ++ [mkDiff KChanged (Some (n + 1)) (rstrip LF a0);
                         mkDiff KChangedContent None (rstrip LF h)], x)).
  { intros x. rewrite step_hint, last_snoc. cbn [type].
    destruct (decide (KRemoved = KRemoved)); [|congruence].
    rewrite set_last_type_snoc, <- app_assoc. reflexivity. }
  unfold classify_from in *. repeat split.
  - rewrite map_app, analyze_loop_app, Hpre. cbn [bind map analyze_loop].
    rewrite Hrem. cbn [bind]. rewrite Hprom. reflexivity.
  - rewrite map_app, analyze_loop_app, Hpre. cbn [bind map analyze_loop].
    rewrite Hrem. cbn [bind]. rewrite step_added. cbn [bind].
    rewrite step_hint, last_snoc. cbn [type].
    destruct (decide (KAdded = KRemoved)); [discriminate|].
    cbn [bind]. rewrite <- app_assoc. reflexivity.
  - rewrite map_app, analyze_loop_app, Hpre. cbn [bind map analyze_loop].
    rewrite Hrem. cbn [bind]. rewrite Hprom. cbn [bind]. rewrite step_added. cbn [bind].
    rewrite step_hint, last_snoc. cbn [type].
    destruct (decide (KAdded = KRemoved)); [discriminate|].
    cbn [bind]. rewrite <- app_assoc. reflexivity.
Qed.

Lemma rstrip_no_trailing c s : last_char (rstrip c s) <> Some c.
Proof.
  induction s as [|a s IH]; cbn [rstrip]; [discriminate|].
  destruct (rstrip c s) as [|b r] eqn:E.
  - destruct (Ascii.eqb a c) eqn:Ea; cbn [last_char]; [discriminate|].
    intros [= ->]. rewrite Ascii.eqb_refl in Ea. discriminate.
  - cbn [last_char] in *. exact IH.
Qed.

Lemma analyze_step_no_line_feed ds n ln ds' n' :
  analyze_step (ds, n) ln = Ok (ds', n') ->
  Forall (fun d => last_char (content d) <> Some LF) ds ->
  Forall (fun d => last_char (content d) <> Some LF) ds'.
Proof.
  intros H Hds. unfold analyze_step in H.
  destruct (startswith ln "  "); [injection H as <- _; exact Hds|].
  destruct (String.get 0 ln) as [c|]; [|discriminate]. cbn [bind] in H.
  destruct (Ascii.eqb c "-").
  { injection H as <- _. apply Forall_app. split; [exact Hds|].
    repeat constructor. apply rstrip_no_trailing. }
  destruct (Ascii.eqb c "+").
  { injection H as <- _. apply Forall_app. split; [exact Hds|].
    repeat constructor. apply rstrip_no_trailing. }
  destruct (Ascii.eqb c "?"); [|injection H as <- _; exact Hds].
  destruct (last ds) as [d|] eqn:El; [|injection H as <- _; exact Hds].
  destruct (decide (type d = KRemoved)); [|injection H as <- _; exact Hds].
  injection H as <- _. apply last_Some_snoc in El as [ds0 ->].
  rewrite set_last_type_snoc. apply Forall_app in Hds as [H0 Hd].
  apply Forall_app. split; [apply Forall_app; split; [exact H0|]|].
  - apply Forall_inv in Hd. repeat constructor. exact Hd.
  - repeat constructor. apply rstrip_no_trailing.
Qed.

(** X5.  No entry that [_analyze_differences] returns has a content that
    ends with a line feed, whatever the diff: the line feeds at the end of
    a line are all stripped, and promoting an entry keeps its content. *)
Theorem contents_have_no_trailing_line_feed (diff : list string) (ds : list DiffRecord) :
  _analyze_differences diff = Ok ds ->
  Forall (fun d => last_char (content d) <> Some LF) ds.
Proof.
  unfold _analyze_differences. intros H.
  apply bind_Ok in H as ([ds' n'] & Hloop & [= <-]). simpl.
  assert (G : forall diff st st',
            analyze_loop diff st = Ok st' ->
            Forall (fun d => last_char (content d) <> Some LF) st.1 ->
            Forall (fun d => last_char (content d) <> Some LF) st'.1).
  { clear. induction diff as [|ln diff IH]; intros st st' H Hst.
    - injection H as <-. exact Hst.
    - cbn [analyze_loop] in H. apply bind_Ok in H as ([ds1 n1] & Hs & Hl).
      destruct st as [ds n]. apply (IH _ _ Hl). simpl.
      exact (analyze_step_no_line_feed _ _ _ _ _ Hs Hst). }
  exact (G _ _ _ Hloop (Forall_nil_2 _)).
Qed.

Lemma contents_have_no_trailing_line_feed_witness :
  Forall (fun d => last_char (content d) <> Some LF)
    [mkDiff KRemoved (Some 1) "abc"].
Proof.
  apply (contents_have_no_trailing_line_feed ["- abc" +:+ line_feeds 2]).
  reflexivity.
Defined.

Lemma count_type_app t ds1 ds2 :
  count_type t (ds1 ++ ds2) = count_type t ds1 + count_type t ds2.
Proof. unfold count_type. rewrite List.filter_app, length_app. reflexivity. Qed.

Lemma count_type_single t d :
  count_type t [d] = if bool_decide (type d = t) then 1 else 0.
Proof. unfold count_type. simpl. destruct (bool_decide (type d = t)); reflexivity. Qed.

Lemma count_type_total ds :
  length ds = count_type KRemoved ds + count_type KAdded ds
              + count_type KChanged ds + count_type KChangedContent ds.
Proof.
  induction ds as [|d ds IH]; [reflexivity|].
  change (d :: ds) with ([d] ++ ds). rewrite !count_type_app, !count_type_single.
  rewrite length_app, IH. destruct d as [[] l c]; simpl; lia.
Qed.

(** The census of the entries against the records read so far. *)
Lemma classify_from_census al : forall ds n,
  classify_from al ([], 0) = Ok (ds, n) ->
  count_type KRemoved ds + count_type KChanged ds = count_tag is_removed al /\
  count_type KAdded ds = count_tag is_added al /\
  count_type KChangedContent ds = count_type KChanged ds.
Proof.
  induction al as [|r al IH] using rev_ind; intros ds n H.
  - injection H as <- <-. repeat split; reflexivity.
  - rewrite classify_from_snoc in H. apply bind_Ok in H as ([ds0 n0] & H0 & Hs).
    destruct (IH _ _ H0) as (I1 & I2 & I3).
    unfold count_tag in *. rewrite !List.filter_app, !length_app.
    destruct r as [p|p|p|p].
    + rewrite step_common in Hs. injection Hs as <- <-. simpl. lia.
    + rewrite step_removed in Hs. injection Hs as <- <-.
      rewrite !count_type_app, !count_type_single. simpl. lia.
    + rewrite step_added in Hs. injection Hs as <- <-.
      rewrite !count_type_app, !count_type_single. simpl. lia.
    + rewrite step_hint in Hs. destruct (last ds0) as [d|] eqn:El.
      2:{ injection Hs as <- <-. simpl. lia. }
      destruct (decide (type d = KRemoved)) as [Hd|Hd].
      2:{ injection Hs as <- <-. simpl. lia. }
      injection Hs as <- <-. apply last_Some_snoc in El as [ds1 ->].
      rewrite set_last_type_snoc.
      rewrite !count_type_app, !count_type_single in *. rewrite Hd in *.
      simpl in *. lia.
Qed.

(** X7.  The entries against the alignment: the removed and changed
    entries together are as many as the Removed records, the added entries
    as many as the Added records, and each changed entry has one
    changed-content entry; so the difference count is the number of
    removed and added lines plus one for each changed line. *)
Theorem difference_count_census (al : list AlignmentRecord) :
  exists ds n,
    classify_from al ([], 0) = Ok (ds, n) /\
    count_type KRemoved ds + count_type KChanged ds = count_tag is_removed al /\
    count_type KAdded ds = count_tag is_added al /\
    count_type KChangedContent ds = count_type KChanged ds /\
    length ds = count_tag is_removed al + count_tag is_added al + count_type KChanged ds.
Proof.
  destruct (classify_from_total al ([], 0)) as [[ds n] H].
  exists ds, n. split; [exact H|].
  destruct (classify_from_census al ds n H) as (I1 & I2 & I3).
  repeat split; try assumption.
  rewrite (count_type_total ds). lia.
Qed.

(** X8.  The list of differences is empty, which is what the callers
    report as identical files, exactly when the alignment holds no Removed
    and no Added record; Hint records alone give no entry. *)
Theorem no_difference_iff_no_removed_no_added (al : list AlignmentRecord) :
  exists ds n,
    classify_from al ([], 0) = Ok (ds, n) /\
    (ds = [] <-> count_tag is_removed al = 0 /\ count_tag is_added al = 0).
Proof.
  destruct (classify_from_total al ([], 0)) as [[ds n] H].
  exists ds, n. split; [exact H|].
  destruct (classify_from_census al ds n H) as (I1 & I2 & I3).
  pose proof (count_type_total ds) as Ht. split.
  - intros ->. simpl in *. unfold count_type in *. simpl in *. lia.
  - intros [R A]. apply length_zero_iff_nil. lia.
Qed.

End ClassifierMore.

(** * Further properties of reading and comparing two files *)

Lemma txt_same_content_is_identical_witness :
  CompareTxt._compare_file_pair fancy_refuses
    [("d", Dir [("file1.txt", File not_utf8); ("file2.txt", File not_utf8)])]
    (CompareTxt.mkPair "d" ["d"] ["d"; "file1.txt"] ["d"; "file2.txt"])
  = ((true, 0%Z), []).
Proof.
  apply (txt_same_content_is_identical _ fancy_refuses _ not_utf8); reflexivity.
Defined.

Section ReadingMore.

Variable fancy :
  list pyline -> nat -> nat -> list pyline -> nat -> nat -> result (list string).
Variable root : list (string * node).

(** Equal lists of lines give no difference. *)
Lemma same_lines_no_difference (L : list pyline) :
  (do r <- (do diff <- Difflib.compare fancy L L; Ok (diff, length L, length L));
   Classifier._analyze_differences r.1.1) = Ok [].
Proof.
  rewrite compare_self. cbn [bind fst snd].
  unfold Classifier._analyze_differences.
  rewrite analyze_loop_common_lines. reflexivity.
Qed.

(** X10.  [Compare_nc_txt.py]: when the first two files of an extension
    hold the same bytes, the entry of the extension has the status
    identical, with the two names, and nothing is logged as an error. *)
Theorem nc_same_content_is_identical
    (info : CompareNc.folder_info) (ext f1 f2 : string) (others : list string) (d : string) :
  CompareNc.files_by_ext info !! ext = Some (f1 :: f2 :: others) ->
  open_read root (CompareNc.folder_path info ++ [f1]) = Ok d ->
  open_read root (CompareNc.folder_path info ++ [f2]) = Ok d ->
  CompareNc.compare_ext fancy root info ext = ([CompareNc.Identical f1 f2 ext], []).
Proof.
  intros Hf H1 H2. unfold CompareNc.compare_ext. rewrite Hf. cbn [default id].
  unfold CompareNc._compare_files. rewrite (nc_read_lines_spec _ _ _ d d H1 H2).
  destruct (utf8_valid d && utf8_valid d); cbn [bind fst snd];
    rewrite same_lines_no_difference; reflexivity.
Qed.

(** X11.  Two files that are both UTF-8 and differ only in how their
    lines end (line feed, carriage return, or both) are reported
    identical: they are read as text, and every line end is read as a line
    feed. *)
Theorem newline_convention_is_no_difference (p : CompareTxt.pair) (d1 d2 : string) :
  open_read root (CompareTxt.file1 p) = Ok d1 ->
  open_read root (CompareTxt.file2 p) = Ok d2 ->
  utf8_valid d1 = true -> utf8_valid d2 = true ->
  universal_newlines d1 = universal_newlines d2 ->
  CompareTxt._compare_file_pair fancy root p = ((true, 0%Z), []).
Proof.
  intros H1 H2 U1 U2 Hn.
  unfold CompareTxt._compare_file_pair, CompareTxt.pair_differences,
    CompareTxt._compare_files.
  rewrite (txt_read_lines_spec _ _ _ d1 d2 H1 H2), U1, U2, Hn.
  cbn [andb bind fst snd]. rewrite same_lines_no_difference. reflexivity.
Qed.

Lemma open_read_cases (p : path) :
  (exists d, open_read root p = Ok d) \/ open_read root p = Raise OSError.
Proof.
  unfold open_read. destruct (resolve root p) as [[d|es]|]; eauto.
Qed.

(** X12.  [Compare_nc_txt.py]: reading a pair gives lines that are all
    text when both files can be opened, and raises an [OSError] when one
    cannot; it never gives bytes and never raises a decoding error. *)
Theorem nc_read_lines_gives_text (file1 file2 : path) :
  (exists l1 l2,
     CompareNc.read_lines root file1 file2 = Ok (l1, l2) /\
     Forall (fun l => is_str l = true) (l1 ++ l2) /\
     (exists d1, open_read root file1 = Ok d1) /\
     (exists d2, open_read root file2 = Ok d2))
  \/ (CompareNc.read_lines root file1 file2 = Raise OSError /\
      (open_read root file1 = Raise OSError \/ open_read root file2 = Raise OSError)).
Proof.
  destruct (open_read_cases file1) as [[d1 H1]|H1].
  2:{ right. split; [|auto]. unfold CompareNc.read_lines. rewrite H1. reflexivity. }
  destruct (open_read_cases file2) as [[d2 H2]|H2].
  2:{ right. split; [|auto]. unfold CompareNc.read_lines. rewrite H1, H2. reflexivity. }
  left. rewrite (nc_read_lines_spec _ _ _ d1 d2 H1 H2).
  destruct (utf8_valid d1 && utf8_valid d2); do 2 eexists;
    (split; [reflexivity|]); (split; [|eauto]);
    apply Forall_app; split; apply List.Forall_map, Forall_forall;
    intros; reflexivity.
Qed.

(** X13.  [Compare_txt.py]: both files of a pair are read the same way.
    When both are UTF-8 all the lines are text; when one is not, the lines
    of both files are bytes, those of the file that is UTF-8 too. *)
Theorem txt_read_lines_same_mode (file1 file2 : path) (d1 d2 : string) :
  open_read root file1 = Ok d1 -> open_read root file2 = Ok d2 ->
  exists l1 l2,
    CompareTxt.read_lines root file1 file2 = Ok (l1, l2) /\
    if utf8_valid d1 && utf8_valid d2
    then Forall (fun l => is_str l = true) (l1 ++ l2)
    else Forall (fun l => is_bytes l = true) (l1 ++ l2).
Proof.
  intros H1 H2. rewrite (txt_read_lines_spec _ _ _ d1 d2 H1 H2).
  destruct (utf8_valid d1 && utf8_valid d2); do 2 eexists;
    (split; [reflexivity|]);
    apply Forall_app; split; apply List.Forall_map, Forall_forall;
    intros; reflexivity.
Qed.

End ReadingMore.

Lemma nc_same_content_is_identical_witness :
  CompareNc.compare_ext fancy_refuses
    [("d", Dir [("a.nc", File not_utf8); ("b.nc", File not_utf8)])]
    (CompareNc.mkInfo ["d"] {[ ".nc" := ["a.nc"; "b.nc"] ]}) ".nc"
  = ([CompareNc.Identical "a.nc" "b.nc" ".nc"], []).
Proof.
  apply (nc_same_content_is_identical fancy_refuses _ _ ".nc" "a.nc" "b.nc" [] not_utf8);
    reflexivity.
Defined.

Lemma newline_convention_is_no_difference_witness :
  CompareTxt._compare_file_pair fancy_refuses
    [("d", Dir [("file1.txt", File (String "a" (String CR (String LF "b"))));
                ("file2.txt", File (String "a" (String LF "b")))])]
    (CompareTxt.mkPair "d" ["d"] ["d"; "file1.txt"] ["d"; "file2.txt"])
  = ((true, 0%Z), []).
Proof.
  apply (newline_convention_is_no_difference fancy_refuses _ _
           (String "a" (String CR (String LF "b"))) (String "a" (String LF "b")));
    reflexivity.
Defined.

Lemma txt_read_lines_same_mode_witness :
  exists l1 l2,
    CompareTxt.read_lines
      [("d", Dir [("file1.txt", File not_utf8); ("file2.txt", File (nl "a"))])]
      ["d"; "file1.txt"] ["d"; "file2.txt"] = Ok (l1, l2) /\
    Forall (fun l => is_bytes l = true) (l1 ++ l2).
Proof.
  apply (txt_read_lines_same_mode
           [("d", Dir [("file1.txt", File not_utf8); ("file2.txt", File (nl "a"))])]
           ["d"; "file1.txt"] ["d"; "file2.txt"] not_utf8 (nl "a")); reflexivity.
Defined.

(** * Further properties of a run of [Compare_txt.py] *)

Section TxtRunMore.

Variable fancy :
  list pyline -> nat -> nat -> list pyline -> nat -> nat -> result (list string).
Variable root : list (string * node).
Variables file1_name file2_name : string.

Lemma open_read_dir (p : path) :
  isdir root p = true -> open_read root p = Raise OSError.
Proof.
  unfold isdir, open_read. destruct (resolve root p) as [[d|es]|]; [discriminate|reflexivity|discriminate].
Qed.

(** X14.  A subfolder in which one of the two names is a directory is
    taken as a pair all the same, [os.path.exists] being true of a
    directory; opening it fails, and the pair ends as an error, [(False,
    -1)], with the [OSError] logged. *)
Theorem pair_with_a_directory_is_an_error (folder : string) :
  folder ∈ listdir root ->
  isdir root [folder] = true ->
  exists_ root [folder; file1_name] = true ->
  exists_ root [folder; file2_name] = true ->
  isdir root [folder; file1_name] = true \/ isdir root [folder; file2_name] = true ->
  let p := CompareTxt.mkPair folder [folder] [folder; file1_name] [folder; file2_name] in
  p ∈ CompareTxt._find_file_pairs root file1_name file2_name /\
  CompareTxt._compare_file_pair fancy root p
  = ((false, (-1)%Z), [LogPairError folder OSError]).
Proof.
  intros Hin Hd E1 E2 Hdir p. split.
  - unfold CompareTxt._find_file_pairs. apply list_elem_of_In, in_flat_map.
    exists folder. split; [apply list_elem_of_In; exact Hin|].
    cbn [app]. rewrite Hd, E1, E2. left. reflexivity.
  - unfold CompareTxt._compare_file_pair, CompareTxt.pair_differences,
      CompareTxt._compare_files, CompareTxt.read_lines. subst p. cbn [CompareTxt.file1 CompareTxt.file2 CompareTxt.folder].
    destruct Hdir as [H|H].
    + rewrite (open_read_dir _ H). reflexivity.
    + rewrite (open_read_dir _ H).
      destruct (open_read_cases root [folder; file1_name]) as [[d ->]| ->]; reflexivity.
Qed.

Lemma txt_compare_file_pair_cases (p : CompareTxt.pair) :
  CompareTxt._compare_file_pair fancy root p = ((true, 0%Z), []) \/
  (exists n, (0 < n)%Z /\ CompareTxt._compare_file_pair fancy root p = ((false, n), [])) \/
  (exists e, CompareTxt._compare_file_pair fancy root p
             = ((false, (-1)%Z), [LogPairError (CompareTxt.folder p) e])).
Proof.
  unfold CompareTxt._compare_file_pair.
  destruct (CompareTxt.pair_differences fancy root p) as [[|d ds]|e].
  - left. reflexivity.
  - right. left. exists (Z.of_nat (length (d :: ds))). split; [simpl; lia|reflexivity].
  - right. right. exists e. reflexivity.
Qed.

Lemma count_details_snoc f ds d :
  count_details f (ds ++ [d])
  = (count_details f ds + (if f d then 1 else 0))%Z.
Proof.
  unfold count_details. rewrite List.filter_app, length_app. simpl.
  destruct (f d); simpl; lia.
Qed.

Lemma txt_run_step_consistent res logs p res' l :
  CompareTxt.run_step fancy root res p = (res', l) ->
  txt_consistent res logs ->
  txt_consistent res' (logs ++ l) /\
  exists d,
    CompareTxt.details res' = CompareTxt.details res ++ [d] /\
    CompareTxt.d_folder d = CompareTxt.folder p /\
    CompareTxt.d_file1 d = CompareTxt.file1 p /\
    CompareTxt.d_file2 d = CompareTxt.file2 p /\
    detail_shape d.
Proof.
  unfold CompareTxt.run_step, txt_consistent.
  intros H (I1 & I2 & I3 & I4 & I5).
  destruct (txt_compare_file_pair_cases p) as [E|[(n & Hn & E)|(e & E)]];
    rewrite E in H.
  - injection H as <- <-. cbn [CompareTxt.details CompareTxt.identical_count
      CompareTxt.different_count CompareTxt.error_count CompareTxt.different_folders].
    rewrite !count_details_snoc, !List.filter_app, !map_app, omap_app, I1, I2, I3, I4, I5.
    unfold CompareTxt.counted_different, is_error_detail. simpl.
    rewrite !app_nil_r. split; [repeat split; lia|].
    eexists. split; [reflexivity|]. repeat split. left. split; reflexivity.
  - assert (Hn' : (0 <? n)%Z = true) by (apply Z.ltb_lt; exact Hn).
    assert (Hn'' : (n =? -1)%Z = false) by (apply Z.eqb_neq; lia).
    rewrite Hn' in H. injection H as <- <-.
    cbn [CompareTxt.details CompareTxt.identical_count
      CompareTxt.different_count CompareTxt.error_count CompareTxt.different_folders].
    rewrite !count_details_snoc, !List.filter_app, !map_app, omap_app, I1, I2, I3, I4, I5.
    unfold CompareTxt.counted_different, is_error_detail. simpl.
    rewrite Hn', Hn''. simpl. rewrite !app_nil_r.
    split; [repeat split; lia|].
    eexists. split; [reflexivity|]. repeat split. right. left. split; [reflexivity|exact Hn].
  - injection H as <- <-. cbn [CompareTxt.details CompareTxt.identical_count
      CompareTxt.different_count CompareTxt.error_count CompareTxt.different_folders].
    rewrite !count_details_snoc, !List.filter_app, !map_app, omap_app, I1, I2, I3, I4, I5.
    unfold CompareTxt.counted_different, is_error_detail. simpl.
    rewrite !app_nil_r. split; [repeat split; lia|].
    eexists. split; [reflexivity|]. repeat split. right. right. split; reflexivity.
Qed.

Lemma txt_run_loop_consistent pairs : forall res logs res' logs',
  CompareTxt.run_loop fancy root pairs res logs = (res', logs') ->
  txt_consistent res logs ->
  txt_consistent res' logs' /\
  exists ds,
    CompareTxt.details res' = CompareTxt.details res ++ ds /\
    map (fun d => (CompareTxt.d_folder d, CompareTxt.d_file1 d, CompareTxt.d_file2 d)) ds
    = map (fun p => (CompareTxt.folder p, CompareTxt.file1 p, CompareTxt.file2 p)) pairs /\
    Forall detail_shape ds.
Proof.
  induction pairs as [|p pairs IH]; intros res logs res' logs' H I.
  - injection H as <- <-. split; [exact I|].
    exists []. rewrite app_nil_r. repeat split. constructor.
  - cbn [CompareTxt.run_loop] in H.
    destruct (CompareTxt.run_step fancy root res p) as [res1 l1] eqn:Hs.
    destruct (txt_run_step_consistent _ logs _ _ _ Hs I)
      as (I' & d & Hd & F & F1 & F2 & Sh).
    destruct (IH _ _ _ _ H I') as (I'' & ds & Hds & Hm & HF).
    split; [exact I''|]. exists (d :: ds).
    rewrite Hds, Hd, <- app_assoc. split; [reflexivity|].
    split; [simpl; rewrite Hm, F, F1, F2; reflexivity|].
    constructor; assumption.
Qed.

Lemma txt_run_inv res logs :
  CompareTxt.run fancy root file1_name file2_name = (Some res, logs) ->
  txt_consistent res logs /\
  map (fun d => (CompareTxt.d_folder d, CompareTxt.d_file1 d, CompareTxt.d_file2 d))
    (CompareTxt.details res)
  = map (fun p => (CompareTxt.folder p, CompareTxt.file1 p, CompareTxt.file2 p))
      (CompareTxt._find_file_pairs root file1_name file2_name) /\
  Forall detail_shape (CompareTxt.details res).
Proof.
  unfold CompareTxt.run.
  destruct (CompareTxt._find_file_pairs root file1_name file2_name) as [|p pairs] eqn:Hp;
    [discriminate|].
  match goal with
  | |- context [CompareTxt.run_loop _ _ ?ps ?r ?l] =>
      destruct (CompareTxt.run_loop fancy root ps r l) as [res' logs'] eqn:Hloop
  end.
  intros [= <- <-].
  apply txt_run_loop_consistent in Hloop as (I & ds & Hds & Hm & HF).
  - simpl in Hds. rewrite Hds. auto.
  - repeat split.
Qed.

(** X15.  The details of a run are the pairs found, one for one and in
    the order of the listing, each with the folder and the two paths of
    its pair; and a detail is of one of three kinds: identical with 0
    differences, not identical with a positive number of them, or not
    identical with -1, the error. *)
Theorem details_mirror_the_pairs (res : CompareTxt.results) (logs : list log_record) :
  CompareTxt.run fancy root file1_name file2_name = (Some res, logs) ->
  map (fun d => (CompareTxt.d_folder d, CompareTxt.d_file1 d, CompareTxt.d_file2 d))
    (CompareTxt.details res)
  = map (fun p => (CompareTxt.folder p, CompareTxt.file1 p, CompareTxt.file2 p))
      (CompareTxt._find_file_pairs root file1_name file2_name) /\
  Forall detail_shape (CompareTxt.details res).
Proof. intros H. apply txt_run_inv in H as (_ & Hm & HF). auto. Qed.

(** X16.  Each counter of the summary is the number of details of its
    kind; the list of different folders holds the folders of the details
    with a positive count, in their order; and the error records logged
    are those of the details with -1, in their order. *)
Theorem counters_count_the_details (res : CompareTxt.results) (logs : list log_record) :
  CompareTxt.run fancy root file1_name file2_name = (Some res, logs) ->
  txt_consistent res logs.
Proof. intros H. apply txt_run_inv in H as (I & _). exact I. Qed.

End TxtRunMore.

Lemma pair_with_a_directory_is_an_error_witness :
  let root := [("d", Dir [("file1.txt", Dir []); ("file2.txt", File (nl "a"))])] in
  let p := CompareTxt.mkPair "d" ["d"] ["d"; "file1.txt"] ["d"; "file2.txt"] in
  p ∈ CompareTxt._find_file_pairs root "file1.txt" "file2.txt" /\
  CompareTxt._compare_file_pair fancy_refuses root p
  = ((false, (-1)%Z), [LogPairError "d" OSError]).
Proof.
  intros root p.
  apply (pair_with_a_directory_is_an_error fancy_refuses root
           "file1.txt" "file2.txt" "d");
    [apply list_elem_of_In; left; reflexivity | reflexivity | reflexivity
    | reflexivity | left; reflexivity].
Defined.

Lemma details_mirror_the_pairs_witness :
  let root := [("a", Dir [("file1.txt", File (nl "x")); ("file2.txt", File (nl "x" +:+ nl "y"))]);
               ("b", Dir [("file1.txt", File (nl "x")); ("file2.txt", Dir [])])] in
  exists res logs,
    CompareTxt.run fancy_refuses root "file1.txt" "file2.txt" = (Some res, logs) /\
    map (fun d => (CompareTxt.d_folder d, CompareTxt.d_file1 d, CompareTxt.d_file2 d))
      (CompareTxt.details res)
    = map (fun p => (CompareTxt.folder p, CompareTxt.file1 p, CompareTxt.file2 p))
        (CompareTxt._find_file_pairs root "file1.txt" "file2.txt") /\
    Forall detail_shape (CompareTxt.details res).
Proof.
  intros root. do 2 eexists. split; [vm_compute; reflexivity|].
  eapply (details_mirror_the_pairs fancy_refuses root "file1.txt" "file2.txt").
  vm_compute. reflexivity.
Defined.

Lemma counters_count_the_details_witness :
  let root := [("a", Dir [("file1.txt", File (nl "x")); ("file2.txt", File (nl "x" +:+ nl "y"))]);
               ("b", Dir [("file1.txt", File (nl "x")); ("file2.txt", Dir [])])] in
  exists res,
    CompareTxt.run fancy_refuses root "file1.txt" "file2.txt"
    = (Some res, [LogPairError "b" OSError]) /\
    txt_consistent res [LogPairError "b" OSError].
Proof.
  intros root. eexists. split; [vm_compute; reflexivity|].
  apply (counters_count_the_details fancy_refuses root "file1.txt" "file2.txt").
  vm_compute. reflexivity.
Defined.

(** * Further properties of [Compare_nc_txt.py] *)

Section NcMore.

Variable fancy :
  list pyline -> nat -> nat -> list pyline -> nat -> nat -> result (list string).
Variable lower : string -> string.
Variable root : list (string * node).
Variable file_exts : list string.

Lemma nc_find_files_folders :
  map fst (CompareNc._find_files lower root file_exts)
  = List.filter (fun f => isdir root [f]) (listdir root).
Proof.
  unfold CompareNc._find_files. induction (listdir root) as [|f fs IH]; [reflexivity|].
  cbn [flat_map List.filter]. rewrite map_app, IH. unfold isdir.
  destruct (resolve root [f]) as [[d|es]|]; reflexivity.
Qed.

Lemma nc_run_loop_folders groups : forall res logs res' logs',
  CompareNc.run_loop fancy root file_exts groups res logs = (res', logs') ->
  map CompareNc.folder (CompareNc.details res')
  = map CompareNc.folder (CompareNc.details res) ++ map fst groups.
Proof.
  induction groups as [|g groups IH]; intros res logs res' logs' H.
  - injection H as <- <-. rewrite app_nil_r. reflexivity.
  - cbn [CompareNc.run_loop] in H.
    destruct (CompareNc.run_step fancy root file_exts res g) as [res1 l1] eqn:Hs.
    apply IH in H. rewrite H. unfold CompareNc.run_step in Hs.
    unfold CompareNc._compare_in_folder in Hs.
    destruct (CompareNc.compare_exts fancy root g.2 file_exts) as [comps l].
    injection Hs as <- _.
    match goal with
    | |- context [fold_left ?f ?cs ?r] =>
        destruct (nc_count_comparisons_inv g.1 cs r) as (_ & Hd & _)
    end.
    cbn [CompareNc.comparisons] in *. rewrite Hd. cbn [CompareNc.details].
    rewrite map_app, <- app_assoc. reflexivity.
Qed.

(** X17.  [Compare_nc_txt.py]: a run that returns a summary has one
    detail for each subdirectory of the parent directory, in the order of
    the listing, whether or not the subdirectory holds files to compare;
    [total_folders] is their number. *)
Theorem nc_details_are_the_subdirectories (res : CompareNc.results) (logs : list log_record) :
  CompareNc.run fancy lower root file_exts = (Some res, logs) ->
  map CompareNc.folder (CompareNc.details res)
  = List.filter (fun f => isdir root [f]) (listdir root) /\
  CompareNc.total_folders res
  = Z.of_nat (length (List.filter (fun f => isdir root [f]) (listdir root))).
Proof.
  unfold CompareNc.run. rewrite <- nc_find_files_folders.
  destruct (CompareNc._find_files lower root file_exts) as [|g groups] eqn:Hg;
    [discriminate|].
  match goal with
  | |- context [CompareNc.run_loop _ _ _ ?gs ?r ?l] =>
      destruct (CompareNc.run_loop fancy root file_exts gs r l) as [res' logs'] eqn:Hloop
  end.
  intros [= <- <-]. split.
  - apply nc_run_loop_folders in Hloop. exact Hloop.
  - apply nc_run_loop_inv in Hloop as (Ht & _). rewrite Ht, length_map. reflexivity.
Qed.

Lemma nc_initial_ext_files (exts : list string) (ext : string) :
  ext ∈ exts ->
  (list_to_map (map (fun ext => (ext, [])) exts) : gmap string (list string)) !! ext
  = Some [].
Proof.
  induction exts as [|e exts IH]; intros Hin; [inversion Hin|].
  cbn [map]. rewrite list_to_map_cons. cbn [fst snd].
  destruct (decide (e = ext)) as [->|Hne].
  - apply lookup_insert_eq.
  - rewrite lookup_insert_ne by exact Hne. apply IH.
    apply elem_of_cons in Hin as [Heq|Hin]; [congruence|exact Hin].
Qed.

Lemma nc_classify_files_lookup (ext : string) (files : list string) :
  forall (m : gmap string (list string)) (l : list string),
  m !! ext = Some l ->
  CompareNc.classify_files lower file_exts files m !! ext
  = Some (l ++ List.filter
                 (fun f => bool_decide (CompareNc.first_ext file_exts (lower f) = Some ext))
                 files).
Proof.
  induction files as [|f files IH]; intros m l Hm.
  - cbn. rewrite app_nil_r. exact Hm.
  - cbn [CompareNc.classify_files List.filter].
    destruct (CompareNc.first_ext file_exts (lower f)) as [e|] eqn:Ef.
    + destruct (decide (e = ext)) as [->|Hne].
      * rewrite bool_decide_eq_true_2 by reflexivity.
        rewrite (IH _ (l ++ [f])).
        -- rewrite <- app_assoc. reflexivity.
        -- rewrite lookup_insert_eq, Hm. reflexivity.
      * rewrite bool_decide_eq_false_2 by congruence.
        apply IH. rewrite lookup_insert_ne by exact Hne. exact Hm.
    + rewrite bool_decide_eq_false_2 by discriminate. apply IH. exact Hm.
Qed.

Lemma lookup_entry_listdir (name : string) (entries : list (string * node)) (n : node) :
  lookup_entry name entries = Some n -> name ∈ listdir entries.
Proof.
  unfold lookup_entry, listdir. induction entries as [|[k v] entries IH]; [discriminate|].
  cbn [List.find fst snd map]. destruct (String.eqb k name) eqn:E.
  - intros _. apply String.eqb_eq in E as ->. left.
  - intros H. right. apply IH. exact H.
Qed.

Lemma string_leb_total : Total (fun x y : string => Is_true (String.leb x y)).
Proof.
  intros x y. destruct (String.leb_total x y) as [H|H]; rewrite H; [left|right]; exact I.
Qed.

(** X18.  The files of a subdirectory by extension: under an extension of
    [file_exts], the group of the subdirectory holds the names whose lower
    case ends with that extension and with none of the extensions before
    it in [file_exts], sorted; a name is under one extension at most. *)
Theorem files_are_grouped_by_first_extension
    (folder ext : string) (entries : list (string * node)) :
  resolve root [folder] = Some (Dir entries) ->
  ext ∈ file_exts ->
  exists info files,
    (folder, info) ∈ CompareNc._find_files lower root file_exts /\
    CompareNc.folder_path info = [folder] /\
    CompareNc.files_by_ext info !! ext = Some files /\
    Sorted (fun x y => Is_true (String.leb x y)) files /\
    files ≡ₚ List.filter
               (fun f => bool_decide (CompareNc.first_ext file_exts (lower f) = Some ext))
               (listdir entries).
Proof.
  intros Hr Hext.
  assert (Hin : folder ∈ listdir root).
  { cbn [resolve] in Hr. destruct (lookup_entry folder root) as [n|] eqn:El; [|discriminate].
    exact (lookup_entry_listdir _ _ _ El). }
  eexists (CompareNc.mkInfo [folder] _), _. split; [|split; [reflexivity|]].
  - unfold CompareNc._find_files. apply list_elem_of_In, in_flat_map.
    exists folder. split; [apply list_elem_of_In; exact Hin|].
    cbv zeta. rewrite Hr. left. reflexivity.
  - cbn [CompareNc.files_by_ext]. rewrite lookup_fmap.
    rewrite (nc_classify_files_lookup ext _ _ [] (nc_initial_ext_files _ _ Hext)).
    cbn [fmap option_fmap option_map app]. split; [reflexivity|]. split.
    + apply Sorted_merge_sort. exact string_leb_total.
    + apply merge_sort_Permutation.
Qed.

Lemma nc_compare_ext_cases (info : CompareNc.folder_info) (ext : string) :
  match default [] (CompareNc.files_by_ext info !! ext) with
  | f1 :: f2 :: _ =>
      CompareNc.compare_ext fancy root info ext = ([CompareNc.Identical f1 f2 ext], []) \/
      (exists d, (0 < d)%Z /\
         CompareNc.compare_ext fancy root info ext = ([CompareNc.Different f1 f2 ext d], [])) \/
      (exists e,
         CompareNc.compare_ext fancy root info ext
         = ([CompareNc.Error e ext], [LogCompareError e]))
  | _ => CompareNc.compare_ext fancy root info ext = ([], [])
  end.
Proof.
  unfold CompareNc.compare_ext.
  destruct (default [] (CompareNc.files_by_ext info !! ext)) as [|f1 [|f2 others]];
    [reflexivity|reflexivity|].
  match goal with
  | |- context [match ?r with Ok _ => _ | Raise _ => _ end] =>
      destruct r as [[|d ds]|e]
  end.
  - left. reflexivity.
  - right. left. exists (Z.of_nat (length (d :: ds))). split; [simpl; lia|reflexivity].
  - right. right. exists e. reflexivity.
Qed.

(** X19.  Of the files of an extension only the first two, in sorted
    order, are compared, whatever the others are; they give one entry: an
    identical or a different one with the two names, a different one
    having a positive count, or an error one, with its record logged. *)
Theorem only_first_two_files_are_compared
    (info : CompareNc.folder_info) (ext f1 f2 : string) (others : list string) :
  CompareNc.files_by_ext info !! ext = Some (f1 :: f2 :: others) ->
  CompareNc.compare_ext fancy root info ext
  = CompareNc.compare_ext fancy root
      (CompareNc.mkInfo (CompareNc.folder_path info) {[ ext := [f1; f2] ]}) ext /\
  exists c,
    CompareNc.compare_ext fancy root info ext = ([c], omap error_record [c]) /\
    match c with
    | CompareNc.Identical a b e => a = f1 /\ b = f2 /\ e = ext
    | CompareNc.Different a b e d => a = f1 /\ b = f2 /\ e = ext /\ (0 < d)%Z
    | CompareNc.Error _ e => e = ext
    end.
Proof.
  intros Hf. split.
  - unfold CompareNc.compare_ext. cbn [CompareNc.files_by_ext CompareNc.folder_path].
    rewrite Hf, lookup_singleton_eq. reflexivity.
  - pose proof (nc_compare_ext_cases info ext) as H. rewrite Hf in H. cbn [default id] in H.
    destruct H as [H|[(d & Hd & H)|(e & H)]]; rewrite H.
    + exists (CompareNc.Identical f1 f2 ext). split; [reflexivity|auto].
    + exists (CompareNc.Different f1 f2 ext d). split; [reflexivity|auto].
    + exists (CompareNc.Error e ext). split; reflexivity.
Qed.

Lemma nc_compare_exts_none (info : CompareNc.folder_info) (exts : list string) :
  (forall ext, ext ∈ exts ->
     length (default [] (CompareNc.files_by_ext info !! ext)) < 2) ->
  CompareNc.compare_exts fancy root info exts = ([], []).
Proof.
  induction exts as [|ext exts IH]; intros H; [reflexivity|].
  cbn [CompareNc.compare_exts]. rewrite IH.
  2:{ intros e He. apply H. right. exact He. }
  pose proof (nc_compare_ext_cases info ext) as Hc.
  pose proof (H ext ltac:(left)) as Hl.
  destruct (default [] (CompareNc.files_by_ext info !! ext)) as [|a [|b l]];
    [rewrite Hc; reflexivity | rewrite Hc; reflexivity | simpl in Hl; lia].
Qed.

(** X20.  A subdirectory that has fewer than two files of each extension
    gives no entry at all and logs no error: its detail has an empty list
    of comparisons. *)
Theorem folder_without_two_files_gives_no_entry
    (folder : string) (info : CompareNc.folder_info) :
  (forall ext, ext ∈ file_exts ->
     length (default [] (CompareNc.files_by_ext info !! ext)) < 2) ->
  CompareNc._compare_in_folder fancy root file_exts folder info
  = (CompareNc.mkFolderResult [] folder, []).
Proof.
  intros H. unfold CompareNc._compare_in_folder.
  rewrite (nc_compare_exts_none info file_exts H). reflexivity.
Qed.

Lemma nc_count_comparisons_lists folder comps : forall res,
  let res' := fold_left (CompareNc.count_comparison folder) comps res in
  CompareNc.different_files res'
  = CompareNc.different_files res ++ omap (different_entry folder) comps /\
  CompareNc.different_pairs res'
  = (CompareNc.different_pairs res
     + Z.of_nat (length (omap (different_entry folder) comps)))%Z /\
  CompareNc.identical_pairs res'
  = (CompareNc.identical_pairs res
     + Z.of_nat (length (List.filter is_identical_entry comps)))%Z /\
  CompareNc.compared_pairs res'
  = (CompareNc.compared_pairs res + Z.of_nat (length comps))%Z /\
  CompareNc.error_pairs res'
  = (CompareNc.error_pairs res + Z.of_nat (length (omap error_record comps)))%Z /\
  CompareNc.details res' = CompareNc.details res.
Proof.
  induction comps as [|c comps IH]; intros res; cbn zeta.
  - cbn. rewrite app_nil_r. repeat split; lia.
  - cbn [fold_left].
    destruct (IH (CompareNc.count_comparison folder res c)) as (I1 & I2 & I3 & I4 & I5 & I6).
    cbn zeta in *. rewrite I1, I2, I3, I4, I5, I6.
    destruct c; cbn; rewrite <- ?app_assoc; repeat split; try reflexivity; lia.
Qed.

Lemma nc_compare_exts_logs (info : CompareNc.folder_info) (exts : list string) :
  forall comps logs,
  CompareNc.compare_exts fancy root info exts = (comps, logs) ->
  logs = omap error_record comps.
Proof.
  induction exts as [|ext exts IH]; intros comps logs H.
  - injection H as <- <-. reflexivity.
  - cbn [CompareNc.compare_exts] in H.
    destruct (CompareNc.compare_ext fancy root info ext) as [c1 l1] eqn:E1.
    destruct (CompareNc.compare_exts fancy root info exts) as [c2 l2] eqn:E2.
    injection H as <- <-. rewrite omap_app, <- (IH c2 l2 eq_refl). f_equal.
    pose proof (nc_compare_ext_cases info ext) as Hc. rewrite E1 in Hc.
    destruct (default [] (CompareNc.files_by_ext info !! ext)) as [|a [|b l]];
      [injection Hc as -> ->; reflexivity | injection Hc as -> ->; reflexivity |].
    destruct Hc as [Hc|[(d & _ & Hc)|(e & Hc)]]; injection Hc as -> ->; reflexivity.
Qed.

Lemma nc_run_step_consistent res logs g res' l :
  CompareNc.run_step fancy root file_exts res g = (res', l) ->
  nc_consistent res logs -> nc_consistent res' (logs ++ l).
Proof.
  unfold CompareNc.run_step, CompareNc._compare_in_folder, nc_consistent, all_comparisons.
  destruct (CompareNc.compare_exts fancy root g.2 file_exts) as [comps cl] eqn:Ec.
  apply nc_compare_exts_logs in Ec. intros [= <- <-] (I1 & I2 & I3 & I4 & I5 & I6).
  match goal with
  | |- context [fold_left ?f ?cs ?r] =>
      destruct (nc_count_comparisons_lists g.1 cs r) as (J1 & J2 & J3 & J4 & J5 & J6)
  end.
  cbn [CompareNc.comparisons] in *. cbn zeta in *.
  rewrite J1, J2, J3, J4, J5, J6.
  cbn [CompareNc.different_files CompareNc.different_pairs CompareNc.identical_pairs
       CompareNc.compared_pairs CompareNc.error_pairs CompareNc.details].
  rewrite !flat_map_app. cbn [flat_map]. rewrite !app_nil_r.
  unfold different_entries at 2. cbn [CompareNc.comparisons CompareNc.folder].
  rewrite List.filter_app, omap_app, !length_app, <- I1, <- I5, Ec.
  repeat split; lia.
Qed.

Lemma nc_run_loop_consistent groups : forall res logs res' logs',
  CompareNc.run_loop fancy root file_exts groups res logs = (res', logs') ->
  nc_consistent res logs -> nc_consistent res' logs'.
Proof.
  induction groups as [|g groups IH]; intros res logs res' logs' H I.
  - injection H as <- <-. exact I.
  - cbn [CompareNc.run_loop] in H.
    destruct (CompareNc.run_step fancy root file_exts res g) as [res1 l1] eqn:Hs.
    exact (IH _ _ _ _ H (nc_run_step_consistent _ _ _ _ _ Hs I)).
Qed.

(** X21.  [Compare_nc_txt.py]: in the summary of a run, [different_files]
    holds, in their order, the entries with status different of the
    details, each with its folder; [different_pairs] is its length;
    [identical_pairs] and [compared_pairs] count the identical entries and
    all the entries; and the error records logged are those of the entries
    with status error, in their order, [error_pairs] being their number. *)
Theorem nc_summary_lists_agree_with_details
    (res : CompareNc.results) (logs : list log_record) :
  CompareNc.run fancy lower root file_exts = (Some res, logs) ->
  nc_consistent res logs.
Proof.
  unfold CompareNc.run.
  destruct (CompareNc._find_files lower root file_exts) as [|g groups] eqn:Hg;
    [discriminate|].
  match goal with
  | |- context [CompareNc.run_loop _ _ _ ?gs ?r ?l] =>
      destruct (CompareNc.run_loop fancy root file_exts gs r l) as [res' logs'] eqn:Hloop
  end.
  intros [= <- <-]. apply (nc_run_loop_consistent _ _ _ _ _ Hloop).
  repeat split.
Qed.

(** The groups that [_find_files] gives, and a run over groups that hold
    fewer than two files of every extension. *)
Lemma nc_find_files_group (g : string * CompareNc.folder_info) :
  g ∈ CompareNc._find_files lower root file_exts ->
  exists entries,
    resolve root [g.1] = Some (Dir entries) /\
    forall ext, ext ∈ file_exts ->
      CompareNc.files_by_ext g.2 !! ext
      = Some (CompareNc.sort_names
                (List.filter
                   (fun f => bool_decide (CompareNc.first_ext file_exts (lower f) = Some ext))
                   (listdir entries))).
Proof.
  intros Hg. unfold CompareNc._find_files in Hg.
  apply list_elem_of_In, in_flat_map in Hg as (folder & _ & Hg). cbv zeta in Hg.
  destruct (resolve root [folder]) as [[d|entries]|] eqn:Hr;
    [contradiction | | contradiction].
  destruct Hg as [<-|[]]. exists entries. split; [exact Hr|].
  intros ext Hext. cbn [CompareNc.files_by_ext snd]. rewrite lookup_fmap.
  rewrite (nc_classify_files_lookup ext _ _ [] (nc_initial_ext_files _ _ Hext)).
  reflexivity.
Qed.

Lemma nc_group_few_files (g : string * CompareNc.folder_info) :
  (forall sub entries ext,
     resolve root [sub] = Some (Dir entries) -> ext ∈ file_exts ->
     length (List.filter
               (fun f => bool_decide (CompareNc.first_ext file_exts (lower f) = Some ext))
               (listdir entries)) < 2) ->
  g ∈ CompareNc._find_files lower root file_exts ->
  forall ext, ext ∈ file_exts ->
    length (default [] (CompareNc.files_by_ext g.2 !! ext)) < 2.
Proof.
  intros Hfew Hg ext Hext.
  destruct (nc_find_files_group g Hg) as (entries & Hr & Hfiles).
  rewrite (Hfiles ext Hext). cbn [default id]. unfold CompareNc.sort_names.
  rewrite (Permutation_length (merge_sort_Permutation _ _)).
  exact (Hfew _ _ _ Hr Hext).
Qed.

Lemma nc_run_loop_no_pairs (groups : list (string * CompareNc.folder_info)) :
  (forall g, g ∈ groups -> forall ext, ext ∈ file_exts ->
     length (default [] (CompareNc.files_by_ext g.2 !! ext)) < 2) ->
  forall res logs,
    CompareNc.run_loop fancy root file_exts groups res logs
    = (CompareNc.mkResults (CompareNc.total_folders res) (CompareNc.compared_pairs res)
         (CompareNc.identical_pairs res) (CompareNc.different_pairs res)
         (CompareNc.error_pairs res) (CompareNc.total_differences res)
         (CompareNc.different_files res)
         (CompareNc.details res
          ++ map (fun g => CompareNc.mkFolderResult [] g.1) groups),
       logs).
Proof.
  induction groups as [|g groups IH]; intros H res logs; cbn [CompareNc.run_loop map].
  - rewrite app_nil_r. destruct res; reflexivity.
  - unfold CompareNc.run_step, CompareNc._compare_in_folder.
    rewrite (nc_compare_exts_none g.2 file_exts) by (apply H; left).
    cbn [fold_left CompareNc.comparisons].
    rewrite IH by (intros g' Hg'; apply H; right; exact Hg').
    cbn [CompareNc.total_folders CompareNc.compared_pairs CompareNc.identical_pairs
         CompareNc.different_pairs CompareNc.error_pairs CompareNc.total_differences
         CompareNc.different_files CompareNc.details].
    rewrite app_nil_r, <- app_assoc. reflexivity.
Qed.

End NcMore.

Lemma nc_details_are_the_subdirectories_witness :
  let root := [("a", Dir []); ("notes.txt", File (nl "x")); ("b", Dir [])] in
  exists res,
    CompareNc.run fancy_refuses ascii_lower root [".nc"; ".txt"] = (Some res, []) /\
    map CompareNc.folder (CompareNc.details res) = ["a"; "b"] /\
    CompareNc.total_folders res = 2%Z.
Proof.
  intros root. eexists. split; [vm_compute; reflexivity|].
  apply (nc_details_are_the_subdirectories fancy_refuses ascii_lower root [".nc"; ".txt"] _ []).
  vm_compute. reflexivity.
Defined.

Lemma files_are_grouped_by_first_extension_witness :
  let root := [("a", Dir [("B.NC", File ""); ("a.nc", File ""); ("c.nc.txt", File "")])] in
  exists info files,
    (("a", info) : string * CompareNc.folder_info)
      ∈ CompareNc._find_files ascii_lower root [".nc"; ".txt"] /\
    CompareNc.folder_path info = ["a"] /\
    CompareNc.files_by_ext info !! ".nc" = Some files /\
    Sorted (fun x y => Is_true (String.leb x y)) files /\
    files ≡ₚ ["B.NC"; "a.nc"].
Proof.
  intros root.
  apply (files_are_grouped_by_first_extension ascii_lower root [".nc"; ".txt"] "a" ".nc"
           [("B.NC", File ""); ("a.nc", File ""); ("c.nc.txt", File "")]);
    [reflexivity | left].
Defined.

Lemma only_first_two_files_are_compared_witness :
  let root := [("d", Dir [("a.nc", File (nl "x")); ("b.nc", File (nl "x"));
                          ("c.nc", File (nl "y"))])] in
  let info := CompareNc.mkInfo ["d"] {[ ".nc" := ["a.nc"; "b.nc"; "c.nc"] ]} in
  CompareNc.compare_ext fancy_refuses root info ".nc"
  = CompareNc.compare_ext fancy_refuses root
      (CompareNc.mkInfo ["d"] {[ ".nc" := ["a.nc"; "b.nc"] ]}) ".nc" /\
  exists c,
    CompareNc.compare_ext fancy_refuses root info ".nc" = ([c], omap error_record [c]) /\
    match c with
    | CompareNc.Identical a b e => a = "a.nc" /\ b = "b.nc" /\ e = ".nc"
    | CompareNc.Different a b e d => a = "a.nc" /\ b = "b.nc" /\ e = ".nc" /\ (0 < d)%Z
    | CompareNc.Error _ e => e = ".nc"
    end.
Proof.
  intros root info.
  apply (only_first_two_files_are_compared fancy_refuses root info ".nc" "a.nc" "b.nc" ["c.nc"]).
  reflexivity.
Defined.

Lemma folder_without_two_files_gives_no_entry_witness :
  CompareNc._compare_in_folder fancy_refuses
    [("d", Dir [("a.nc", File (nl "x"))])] [".nc"; ".txt"] "d"
    (CompareNc.mkInfo ["d"] {[ ".nc" := ["a.nc"]; ".txt" := [] ]})
  = (CompareNc.mkFolderResult [] "d", []).
Proof.
  apply (folder_without_two_files_gives_no_entry fancy_refuses
           [("d", Dir [("a.nc", File (nl "x"))])] [".nc"; ".txt"] "d").
  intros ext Hext.
  apply elem_of_cons in Hext as [->|Hext]; [vm_compute; lia|].
  apply elem_of_cons in Hext as [->|Hext]; [vm_compute; lia|].
  inversion Hext.
Defined.

Lemma nc_summary_lists_agree_with_details_witness :
  let root := [("a", Dir [("1.nc", File (nl "x")); ("2.nc", File (nl "x" +:+ nl "y"));
                          ("1.txt", File (nl "x")); ("2.txt", Dir [])]);
               ("b", Dir [("1.nc", File (nl "x")); ("2.nc", File (nl "x"))])] in
  exists res,
    CompareNc.run fancy_refuses ascii_lower root [".nc"; ".txt"]
    = (Some res, [LogCompareError OSError]) /\
    nc_consistent res [LogCompareError OSError].
Proof.
  intros root. eexists. split; [vm_compute; reflexivity|].
  apply (nc_summary_lists_agree_with_details fancy_refuses ascii_lower root [".nc"; ".txt"]).
  vm_compute. reflexivity.
Defined.

(** * The entry point of [Compare_txt.py] *)

Section EntryPoint.

Variable fancy :
  list pyline -> nat -> nat -> list pyline -> nat -> nat -> result (list string).
Variables file1_name file2_name : string.

Lemma txt_find_file_pairs_nil (root : list (string * node)) :
  CompareTxt._find_file_pairs root file1_name file2_name = [] <->
  (forall folder, folder ∈ listdir root ->
     isdir root [folder]
     && (exists_ root [folder; file1_name] && exists_ root [folder; file2_name]) = false).
Proof.
  unfold CompareTxt._find_file_pairs. split.
  - intros Hnil folder Hin.
    destruct (isdir root [folder]
              && (exists_ root [folder; file1_name] && exists_ root [folder; file2_name]))
      eqn:E; [|reflexivity].
    exfalso. revert Hnil. apply (flat_map_not_nil _ _ folder Hin).
    cbn [app]. apply andb_true_iff in E as [-> ->]. discriminate.
  - intros H. apply flat_map_nil. intros folder Hin. specialize (H folder Hin).
    cbn [app]. destruct (isdir root [folder]); cbn [negb andb] in *; [|reflexivity].
    rewrite H. reflexivity.
Qed.

Lemma txt_run_some (root : list (string * node)) :
  CompareTxt._find_file_pairs root file1_name file2_name <> [] ->
  exists res logs,
    CompareTxt.run fancy root file1_name file2_name = (Some res, logs) /\
    CompareTxt.total_folders res
    = Z.of_nat (length (CompareTxt._find_file_pairs root file1_name file2_name)).
Proof.
  intros Hne. unfold CompareTxt.run.
  destruct (CompareTxt._find_file_pairs root file1_name file2_name) as [|p pairs];
    [contradiction|].
  match goal with
  | |- context [CompareTxt.run_loop _ _ ?ps ?r ?l] =>
      destruct (CompareTxt.run_loop fancy root ps r l) as [res' logs'] eqn:Hloop
  end.
  exists res', logs'. split; [reflexivity|].
  apply txt_run_loop_inv in Hloop as (Ht & _). exact Ht.
Qed.

(** X22.  For two plain file names, [compare_files_in_directory] returns
    [None] exactly when the parent path is not a directory or no
    subdirectory of it holds both names; it writes its message to the console exactly when the path is
    not a directory, and then nothing is logged; and a summary that it
    returns counts one folder at least. *)
Theorem entry_point_returns_none_without_pairs (parent : option node) :
  plain_name file1_name = true -> plain_name file2_name = true ->
  let r := compare_files_in_directory fancy parent file1_name file2_name in
  (r.1.1 = None <->
   forall entries, parent = Some (Dir entries) ->
     forall folder, folder ∈ listdir entries ->
       isdir entries [folder]
       && (exists_ entries [folder; file1_name] && exists_ entries [folder; file2_name])
       = false) /\
  (r.2 = [PrintNotADirectory] <-> forall entries, parent <> Some (Dir entries)) /\
  (r.2 = [PrintNotADirectory] -> r.1 = (None, [])) /\
  (forall res, r.1.1 = Some res -> (0 < CompareTxt.total_folders res)%Z).
Proof.
  intros _ _. unfold compare_files_in_directory.
  destruct parent as [[d|entries]|]; cbn [fst snd].
  - repeat split; try discriminate; auto.
  - split; [|split; [|split]].
    + split.
      * intros Hnone es [= <-]. apply txt_find_file_pairs_nil.
        destruct (CompareTxt._find_file_pairs entries file1_name file2_name) eqn:E;
          [reflexivity|].
        destruct (txt_run_some entries) as (res & logs & Hrun & _); [congruence|].
        rewrite Hrun in Hnone. discriminate.
      * intros H. specialize (H entries eq_refl). apply txt_find_file_pairs_nil in H.
        unfold CompareTxt.run. rewrite H. reflexivity.
    + split; [discriminate|]. intros H. exfalso. exact (H entries eq_refl).
    + discriminate.
    + intros res Hres.
      destruct (CompareTxt._find_file_pairs entries file1_name file2_name) as [|p ps] eqn:E.
      * unfold CompareTxt.run in Hres. rewrite E in Hres. discriminate.
      * destruct (txt_run_some entries) as (res' & logs & Hrun & Ht); [congruence|].
        rewrite Hrun in Hres. injection Hres as <-. rewrite Ht, E. simpl. lia.
  - repeat split; try discriminate; auto.
Qed.

End EntryPoint.

Lemma entry_point_returns_none_without_pairs_witness :
  let parent := Some (Dir [("a", Dir [("file1.txt", File (nl "x"))]);
                           ("b", File (nl "y"))]) in
  let r := compare_files_in_directory fancy_refuses parent "file1.txt" "file2.txt" in
  (r.1.1 = None <->
   forall entries, parent = Some (Dir entries) ->
     forall folder, folder ∈ listdir entries ->
       isdir entries [folder]
       && (exists_ entries [folder; "file1.txt"] && exists_ entries [folder; "file2.txt"])
       = false) /\
  (r.2 = [PrintNotADirectory] <-> forall entries, parent <> Some (Dir entries)) /\
  (r.2 = [PrintNotADirectory] -> r.1 = (None, [])) /\
  (forall res, r.1.1 = Some res -> (0 < CompareTxt.total_folders res)%Z).
Proof.
  intros parent.
  apply (entry_point_returns_none_without_pairs fancy_refuses "file1.txt" "file2.txt" parent);
    reflexivity.
Defined.

(** * A file against an empty file *)

Section EmptyFile.

Import Classifier Difflib.

Variable fancy :
  list pyline -> nat -> nat -> list pyline -> nat -> nat -> result (list string).

Lemma flm_outer_no_key (a : list pyline) (blo bhi : nat) (rows : list nat) :
  forall j2len best,
  Forall (fun i => i < length a) rows ->
  flm_outer a ∅ rows blo bhi j2len best = Ok best.
Proof.
  induction rows as [|i rows IH]; intros j2len best Hrows; [reflexivity|].
  apply Forall_cons in Hrows as [Hi Hrows]. cbn [flm_outer]. unfold getitem.
  destruct (lookup_lt_is_Some_2 a i Hi) as [ai ->]. cbn [bind].
  rewrite lookup_empty. cbn [default id flm_inner]. apply IH. exact Hrows.
Qed.

Lemma extend_fwd_no_b (a b : list pyline) (junk : bool) (d i : nat) :
  extend_fwd a b junk 0 d i 0 0 = Ok (i, 0, 0).
Proof. destruct d; reflexivity. Qed.

Lemma get_opcodes_empty_b (a : list pyline) :
  get_opcodes a [] = Ok (if 0 <? length a then [(Delete, 0, length a, 0, 0)] else []).
Proof.
  unfold get_opcodes, get_matching_blocks.
  replace (2 * length a + 1) with (S (2 * length a)) by lia.
  change (chain_b []) with (∅ : gmap pyline (list nat)).
  cbn [gmb_loop length]. unfold find_longest_match.
  rewrite flm_outer_no_key.
  2:{ apply Forall_forall. intros i Hi. apply list_elem_of_In, in_seq in Hi. lia. }
  cbn [bind extend_back]. rewrite !extend_fwd_no_b. cbn [bind extend_back].
  rewrite !extend_fwd_no_b. cbn.
  destruct (length a); reflexivity.
Qed.

Lemma get_opcodes_empty_a (b : list pyline) :
  get_opcodes [] b = Ok (if 0 <? length b then [(Insert, 0, 0, 0, length b)] else []).
Proof.
  unfold get_opcodes, get_matching_blocks.
  cbn [length Nat.mul Nat.add gmb_loop]. unfold find_longest_match.
  cbn [Nat.sub seq flm_outer bind extend_back Nat.add extend_fwd Nat.eqb gmb_loop].
  cbn. destruct (length b); reflexivity.
Qed.

Lemma analyze_loop_removed_lines (L : list pyline) : forall ds n,
  analyze_loop (map (fun l => "-" +:+ " " +:+ format_s l) L) (ds, n)
  = Ok (ds ++ map (fun l => mkDiff KRemoved (Some (n + 1)) (rstrip LF (format_s l))) L, n).
Proof.
  induction L as [|l L IH]; intros ds n; cbn [map].
  - rewrite app_nil_r. reflexivity.
  - cbn [analyze_loop].
    change ("-" +:+ " " +:+ format_s l) with (render (Removed (format_s l))).
    rewrite step_removed. cbn [bind]. rewrite IH, <- app_assoc. reflexivity.
Qed.

Lemma analyze_loop_added_lines (L : list pyline) : forall ds n,
  analyze_loop (map (fun l => "+" +:+ " " +:+ format_s l) L) (ds, n)
  = Ok (ds ++ map (fun il => mkDiff KAdded (Some il.1) (rstrip LF (format_s il.2)))
                (combine (seq (n + 1) (length L)) L),
        n + length L).
Proof.
  induction L as [|l L IH]; intros ds n; cbn [map length seq combine].
  - rewrite app_nil_r, Nat.add_0_r. reflexivity.
  - cbn [analyze_loop].
    change ("+" +:+ " " +:+ format_s l) with (render (Added (format_s l))).
    rewrite step_added. cbn [bind]. rewrite IH, <- app_assoc. cbn [fst snd app].
    replace (S (n + 1)) with (n + 1 + 1) by lia.
    replace (n + 1 + length L) with (n + S (length L)) by lia. reflexivity.
Qed.

Lemma differences_against_empty_second (L : list pyline) :
  (do diff <- compare fancy L []; _analyze_differences diff)
  = Ok (map (fun l => mkDiff KRemoved (Some 1) (rstrip LF (format_s l))) L).
Proof.
  unfold compare. rewrite get_opcodes_empty_b. cbn [bind].
  destruct L as [|x L]; [reflexivity|].
  change (0 <? length (x :: L)) with true. cbn [compare_loop]. unfold _dump.
  rewrite Nat.sub_0_r.
  rewrite (dump_loop_seq "-" [] (x :: L) : dump_loop "-" (x :: L) (seq 0 (length (x :: L))) = _).
  cbn [bind]. rewrite app_nil_r. unfold _analyze_differences.
  rewrite analyze_loop_removed_lines. reflexivity.
Qed.

Lemma differences_against_empty_first (L : list pyline) :
  (do diff <- compare fancy [] L; _analyze_differences diff)
  = Ok (map (fun il => mkDiff KAdded (Some il.1) (rstrip LF (format_s il.2)))
          (combine (seq 1 (length L)) L)).
Proof.
  unfold compare. rewrite get_opcodes_empty_a. cbn [bind].
  destruct L as [|x L]; [reflexivity|].
  change (0 <? length (x :: L)) with true. cbn [compare_loop]. unfold _dump.
  rewrite Nat.sub_0_r.
  rewrite (dump_loop_seq "+" [] (x :: L) : dump_loop "+" (x :: L) (seq 0 (length (x :: L))) = _).
  cbn [bind]. rewrite app_nil_r. unfold _analyze_differences.
  rewrite analyze_loop_added_lines. reflexivity.
Qed.

Variable root : list (string * node).

(** X23.  When the second file of a pair has no line, every line of the
    first file gives a removed entry, and all these entries carry the line
    number 1: a removed line does not move the line counter. *)
Theorem lines_removed_against_an_empty_file (p : CompareTxt.pair) (lines1 : list pyline) :
  CompareTxt.read_lines root (CompareTxt.file1 p) (CompareTxt.file2 p) = Ok (lines1, []) ->
  CompareTxt.pair_differences fancy root p
  = Ok (map (fun l => mkDiff KRemoved (Some 1) (rstrip LF (format_s l))) lines1).
Proof.
  intros H. unfold CompareTxt.pair_differences, CompareTxt._compare_files.
  rewrite H. cbn [bind fst snd].
  pose proof (differences_against_empty_second lines1) as Hd.
  destruct (compare fancy lines1 []) as [diff|e]; cbn [bind fst snd] in *; exact Hd.
Qed.

(** X24.  When the first file of a pair has no line, every line of the
    second file gives an added entry, and the entries are numbered 1, 2,
    and so on, as the lines are in the second file. *)
Theorem lines_added_against_an_empty_file (p : CompareTxt.pair) (lines2 : list pyline) :
  CompareTxt.read_lines root (CompareTxt.file1 p) (CompareTxt.file2 p) = Ok ([], lines2) ->
  CompareTxt.pair_differences fancy root p
  = Ok (map (fun il => mkDiff KAdded (Some il.1) (rstrip LF (format_s il.2)))
          (combine (seq 1 (length lines2)) lines2)).
Proof.
  intros H. unfold CompareTxt.pair_differences, CompareTxt._compare_files.
  rewrite H. cbn [bind fst snd].
  pose proof (differences_against_empty_first lines2) as Hd.
  destruct (compare fancy [] lines2) as [diff|e]; cbn [bind fst snd] in *; exact Hd.
Qed.

End EmptyFile.

Lemma lines_removed_against_an_empty_file_witness :
  CompareTxt.pair_differences fancy_refuses
    [("d", Dir [("file1.txt", File (nl "a" +:+ nl "b")); ("file2.txt", File "")])]
    (CompareTxt.mkPair "d" ["d"] ["d"; "file1.txt"] ["d"; "file2.txt"])
  = Ok [Classifier.mkDiff Classifier.KRemoved (Some 1) "a";
        Classifier.mkDiff Classifier.KRemoved (Some 1) "b"].
Proof.
  apply (lines_removed_against_an_empty_file fancy_refuses
           [("d", Dir [("file1.txt", File (nl "a" +:+ nl "b")); ("file2.txt", File "")])]
           (CompareTxt.mkPair "d" ["d"] ["d"; "file1.txt"] ["d"; "file2.txt"])
           [PStr (nl "a"); PStr (nl "b")]).
  reflexivity.
Defined.

Lemma lines_added_against_an_empty_file_witness :
  CompareTxt.pair_differences fancy_refuses
    [("d", Dir [("file1.txt", File ""); ("file2.txt", File (nl "a" +:+ nl "b"))])]
    (CompareTxt.mkPair "d" ["d"] ["d"; "file1.txt"] ["d"; "file2.txt"])
  = Ok [Classifier.mkDiff Classifier.KAdded (Some 1) "a";
        Classifier.mkDiff Classifier.KAdded (Some 2) "b"].
Proof.
  apply (lines_added_against_an_empty_file fancy_refuses
           [("d", Dir [("file1.txt", File ""); ("file2.txt", File (nl "a" +:+ nl "b"))])]
           (CompareTxt.mkPair "d" ["d"] ["d"; "file1.txt"] ["d"; "file2.txt"])
           [PStr (nl "a"); PStr (nl "b")]).
  reflexivity.
Defined.

(** * A run with nothing to compare, for every tree *)

Section NothingToCompare.

Variable fancy :
  list pyline -> nat -> nat -> list pyline -> nat -> nat -> result (list string).
Variable lower : string -> string.
Variable root : list (string * node).
Variables file1_name file2_name : string.
Variable file_exts : list string.

(** C8, as the code has it.  [Compare_txt.run], for two plain file names:
    when no subfolder of the root holds both files it logs an error and
    returns [None].  [Compare_nc_txt.run]: when the root has no subfolder
    it logs an error and returns [None]; when it has one it returns a
    summary, whose [total_folders] is the number of subfolders; and when
    no subfolder has two files of an extension, the summary holds one
    detail without comparisons for every subfolder, all its counters
    ([compared_pairs] among them) are 0, and nothing is logged as an
    error. *)
Theorem run_with_nothing_to_compare :
  (plain_name file1_name = true -> plain_name file2_name = true ->
   (forall folder, folder ∈ listdir root ->
      isdir root [folder]
      && (exists_ root [folder; file1_name] && exists_ root [folder; file2_name])
      = false) ->
   CompareTxt.run fancy root file1_name file2_name = (None, [LogNoPairs])) /\
  ((forall folder, folder ∈ listdir root -> isdir root [folder] = false) ->
   CompareNc.run fancy lower root file_exts = (None, [LogNoFolders])) /\
  (forall folder, folder ∈ listdir root -> isdir root [folder] = true ->
   let subfolders := List.filter (fun f => isdir root [f]) (listdir root) in
   exists res logs,
     CompareNc.run fancy lower root file_exts = (Some res, logs) /\
     CompareNc.total_folders res = Z.of_nat (length subfolders) /\
     ((forall sub entries ext,
         resolve root [sub] = Some (Dir entries) -> ext ∈ file_exts ->
         length (List.filter
                   (fun f => bool_decide
                               (CompareNc.first_ext file_exts (lower f) = Some ext))
                   (listdir entries)) < 2) ->
      res = CompareNc.mkResults (Z.of_nat (length subfolders)) 0 0 0 0 0 []
              (map (CompareNc.mkFolderResult []) subfolders) /\
      logs = [])).
Proof.
  split; [|split].
  - intros _ _ H. unfold CompareTxt.run, CompareTxt._find_file_pairs.
    rewrite flat_map_nil; [reflexivity|].
    intros folder Hin. specialize (H folder Hin). simpl app.
    destruct (isdir root [folder]); simpl in *; [|reflexivity].
    rewrite H. reflexivity.
  - intros H. unfold CompareNc.run, CompareNc._find_files.
    rewrite flat_map_nil; [reflexivity|].
    intros folder Hin. specialize (H folder Hin). unfold isdir in H.
    destruct (resolve root [folder]) as [[d|es]|]; [reflexivity|discriminate|reflexivity].
  - intros folder Hin Hdir subfolders.
    assert (Hsub : subfolders = map fst (CompareNc._find_files lower root file_exts))
      by (symmetry; apply nc_find_files_folders).
    unfold CompareNc.run.
    destruct (CompareNc._find_files lower root file_exts) as [|g groups] eqn:Hg.
    + exfalso. revert Hg. unfold CompareNc._find_files.
      apply (flat_map_not_nil _ _ folder Hin).
      unfold isdir in Hdir.
      destruct (resolve root [folder]) as [[d|es]|]; discriminate.
    + match goal with
      | |- context [CompareNc.run_loop _ _ _ ?gs ?r ?l] =>
          destruct (CompareNc.run_loop fancy root file_exts gs r l)
            as [res' logs'] eqn:Hloop
      end.
      exists res', logs'. split; [reflexivity|]. split.
      * apply nc_run_loop_inv in Hloop as (Ht & _).
        rewrite Ht, Hsub, length_map. reflexivity.
      * intros Hfew. rewrite nc_run_loop_no_pairs in Hloop.
        2:{ intros g' Hg'. apply (nc_group_few_files lower root file_exts g' Hfew).
            rewrite Hg. exact Hg'. }
        injection Hloop as <- <-.
        cbn [CompareNc.total_folders CompareNc.compared_pairs CompareNc.identical_pairs
             CompareNc.different_pairs CompareNc.error_pairs CompareNc.total_differences
             CompareNc.different_files CompareNc.details app].
        rewrite Hsub, length_map, map_map. split; reflexivity.
Qed.

End NothingToCompare.

(** A root with a plain file and a subfolder that holds one of the two
    files, for [Compare_txt.py]; a root with a plain file only, and a root
    whose one subfolder holds a single file, for [Compare_nc_txt.py]. *)
Lemma run_with_nothing_to_compare_witness :
  CompareTxt.run fancy_refuses
    [("notes.txt", File (nl "a")); ("f", Dir [("file1.txt", File (nl "a"))])]
    "file1.txt" "file2.txt"
  = (None, [LogNoPairs]) /\
  CompareNc.run fancy_refuses ascii_lower [("notes.txt", File (nl "a"))] [".nc"; ".txt"]
  = (None, [LogNoFolders]) /\
  exists res logs,
    CompareNc.run fancy_refuses ascii_lower
      [("f", Dir [("only.txt", File (nl "a"))])] [".nc"; ".txt"]
    = (Some res, logs) /\
    res = CompareNc.mkResults 1 0 0 0 0 0 [] [CompareNc.mkFolderResult [] "f"] /\
    logs = [].
Proof.
  split; [|split].
  - apply (run_with_nothing_to_compare fancy_refuses ascii_lower
             [("notes.txt", File (nl "a")); ("f", Dir [("file1.txt", File (nl "a"))])]
             "file1.txt" "file2.txt" [".nc"; ".txt"]); [reflexivity|reflexivity|].
    intros folder Hin. simpl in Hin.
    apply elem_of_cons in Hin as [->|Hin]; [reflexivity|].
    apply elem_of_cons in Hin as [->|Hin]; [reflexivity|inversion Hin].
  - apply (run_with_nothing_to_compare fancy_refuses ascii_lower
             [("notes.txt", File (nl "a"))] "file1.txt" "file2.txt" [".nc"; ".txt"]).
    intros folder Hin. simpl in Hin.
    apply elem_of_cons in Hin as [->|Hin]; [reflexivity|inversion Hin].
  - destruct (run_with_nothing_to_compare fancy_refuses ascii_lower
                [("f", Dir [("only.txt", File (nl "a"))])]
                "file1.txt" "file2.txt" [".nc"; ".txt"]) as (_ & _ & H).
    destruct (H "f" ltac:(left) eq_refl) as (res & logs & Hrun & _ & Hfew).
    exists res, logs. split; [exact Hrun|]. apply Hfew.
    clear H. intros sub entries ext Hr Hext.
    unfold resolve, lookup_entry in Hr. cbn [List.find fst snd] in Hr.
    destruct (String.eqb "f" sub); [|discriminate Hr].
    cbn in Hr. injection Hr as <-.
    apply elem_of_cons in Hext as [->|Hext]; [vm_compute; lia|].
    apply elem_of_cons in Hext as [->|Hext]; [vm_compute; lia|inversion Hext].
Defined.
